(** * pdf-filler: the field-resolution and value-coercion engine

    A shallow embedding of [utils_pdf.py] (field walker, catalog merge,
    checkbox semantics, fill engine) and of the import/export and batch
    parts of [app.py], together with the properties the specification
    states about them.

    Conventions of the embedding.
    - A Python [str] is a [string]; its characters stand for code points
      below 128, so [strip] and [lower] are the ASCII restrictions of the
      Python methods (characters above 127 are neither whitespace nor
      cased here).
    - A [PdfName] is the string pdfrw prints for it, with its leading
      slash: [PdfName.Off] is ["/Off"].
    - A Python [dict] keyed by strings is a [gmap string _]; a dictionary
      whose iteration order matters is the list of its keys.
    - Exceptions are values of [except]. *)

From Stdlib Require Import Ascii String List ZArith Lia Bool.
From stdpp Require Import base option list gmap strings.


(** ** Python string methods *)

Module Py.

(** [str.isspace] on one character, for code points below 128: TAB, LF,
    VT, FF, CR, the four separators FS GS RS US, and the space. *)
Definition isspace (c : ascii) : bool :=
  let n := nat_of_ascii c in
  ((9 <=? n)%nat && (n <=? 13)%nat) || ((28 <=? n)%nat && (n <=? 32)%nat).

(** One character of [str.lower]. *)
Definition lower_char (c : ascii) : ascii :=
  let n := nat_of_ascii c in
  if ((65 <=? n)%nat && (n <=? 90)%nat) then ascii_of_nat (n + 32) else c.

Fixpoint lower (s : string) : string :=
  match s with
  | EmptyString => EmptyString
  | String c s' => String (lower_char c) (lower s')
  end.

Fixpoint lstrip (s : string) : string :=
  match s with
  | EmptyString => EmptyString
  | String c s' => if isspace c then lstrip s' else s
  end.

Fixpoint rstrip (s : string) : string :=
  match s with
  | EmptyString => EmptyString
  | String c s' =>
      match rstrip s' with
      | EmptyString => if isspace c then EmptyString else String c EmptyString
      | r => String c r
      end
  end.

Definition strip (s : string) : string := rstrip (lstrip s).

(** [s.startswith(c)] and [s.endswith(c)] for a one-character [c]. *)
Definition startswith (s : string) (c : ascii) : bool :=
  match s with
  | String d _ => bool_decide (d = c)
  | EmptyString => false
  end.

Fixpoint endswith (s : string) (c : ascii) : bool :=
  match s with
  | EmptyString => false
  | String d EmptyString => bool_decide (d = c)
  | String _ s' => endswith s' c
  end.

(** [s[:-1]]: all but the last character. *)
Fixpoint drop_last (s : string) : string :=
  match s with
  | EmptyString => EmptyString
  | String _ EmptyString => EmptyString
  | String c s' => String c (drop_last s')
  end.

(** [s[1:-1]]. *)
Definition slice_1_m1 (s : string) : string :=
  match s with
  | EmptyString => EmptyString
  | String _ s' => drop_last s'
  end.

(** Truthiness of a string. *)
Definition truthy (s : string) : bool :=
  match s with EmptyString => false | _ => true end.

End Py.

(** ** Checkbox rules and value classification ([should_check]) *)

(** A rule is the dictionary [{"checked_values": [...], "unchecked_values":
    [...], "default": "on" | "off"}]; each key may be missing, which
    [rule.get] covers with a default. *)
Record rule := Rule {
  rule_checked_values : option (list string);
  rule_unchecked_values : option (list string);
  rule_default : option string
}.

(** [str(x).strip().lower()]. *)
Definition norm (s : string) : string := Py.lower (Py.strip s).

Definition should_check (value : string) (r : rule) : bool :=
  let v := norm value in
  let checked_values := norm <$> default [] (rule_checked_values r) in
  let unchecked_values := norm <$> default [] (rule_unchecked_values r) in
  let default_ := norm (default "off" (rule_default r)) in
  if bool_decide (v ∈ checked_values) then true
  else if bool_decide (v ∈ unchecked_values) then false
  else if bool_decide (default_ = "on") then true else false.

(** The rule the fill engine uses when none is configured. *)
Definition DEFAULT_RULE : rule :=
  {| rule_checked_values :=
       Some ["yes"; "true"; "1"; "x"; "on"; "checked"; "male"];
     rule_unchecked_values :=
       Some ["no"; "false"; "0"; "off"; "unchecked"; ""; "female"];
     rule_default := Some "off" |}.

(** The polarity a rule falls back to. *)
Definition default_polarity (r : rule) : bool :=
  bool_decide (norm (default "off" (rule_default r)) = "on").

(** [value] equals some token of [tokens] up to letter case only. *)
Definition matches_nocase (value : string) (tokens : option (list string)) : Prop :=
  ∃ t, t ∈ default [] tokens ∧ Py.lower value = Py.lower t.

(** [value] equals some token of [tokens] once both are trimmed and
    lower-cased, which is the comparison [should_check] makes. *)
Definition matches (value : string) (tokens : option (list string)) : Prop :=
  ∃ t, t ∈ default [] tokens ∧ norm value = norm t.

(** The three buckets of the classification. *)
Inductive bucket := Checked | Unchecked | Default.

Definition in_bucket (value : string) (r : rule) (b : bucket) : Prop :=
  match b with
  | Checked => matches value (rule_checked_values r)
  | Unchecked =>
      ¬ matches value (rule_checked_values r) ∧
      matches value (rule_unchecked_values r)
  | Default =>
      ¬ matches value (rule_checked_values r) ∧
      ¬ matches value (rule_unchecked_values r)
  end.

Definition bucket_result (r : rule) (b : bucket) : bool :=
  match b with
  | Checked => true
  | Unchecked => false
  | Default => default_polarity r
  end.


(** ** Exceptions *)

Inductive except (A : Type) : Type :=
  | Ok (a : A)
  | Raise (msg : string).
Arguments Ok {A} a.
Arguments Raise {A} msg.

#[global] Instance except_ret : MRet except := λ A a, Ok a.
#[global] Instance except_bind : MBind except := λ A B k m,
  match m with
  | Ok a => k a
  | Raise e => Raise e
  end.

(** ** The pdfrw object model

    Every node of the form tree and every page annotation is a [PdfDict];
    [field] keeps the entries the program reads or writes.  An absent
    entry and an entry set to [None] are the same thing for pdfrw, so
    each is an [option]; [Kids] is the list of child nodes, empty when
    the entry is absent (the program only ever tests [if kids:]). *)

Abbreviation PdfName := string (only parsing).

Inductive pdfobj :=
  | PName (n : PdfName)
  | PString (s : string).

(** The appearance dictionary [/AP]; [AP_N] lists the keys of its
    normal-appearance sub-dictionary [/N] in iteration order. *)
Record ap_dict := ApDict { AP_N : option (list PdfName) }.

#[warnings="-register-all"]
Inductive field := Field {
  T : option string;
  FT : option PdfName;
  V : option pdfobj;
  AS : option PdfName;
  AP : option ap_dict;
  DA : option string;
  Ff : option Z;
  Subtype : option PdfName;
  Kids : list field
}.

Record acroform := AcroFormDict {
  XFA : option pdfobj;
  NeedAppearances : option bool;
  Fields : list field
}.

(** An entry of a page's [Annots]: pdfrw reads an indirect object once,
    so an annotation that is also a node of the form tree is that very
    object, kept here as the path of indices leading to it from [Fields]
    (through [Kids]); any other annotation is a dictionary of its own. *)
Inductive annot :=
  | FormNode (path : list nat)
  | Loose (a : field).

Record pdf := Pdf {
  AcroForm : option acroform;
  pages : list (list annot)
}.

(** The node a path leads to. *)
Fixpoint node_at (l : list field) (path : list nat) : option field :=
  match path with
  | [] => None
  | i :: rest =>
      match l !! i with
      | Some f =>
          match rest with
          | [] => Some f
          | _ => node_at (Kids f) rest
          end
      | None => None
      end
  end.

(** The dictionary an annotation of the document is, as the document
    holds it now; a path that leads nowhere is the null object. *)
Definition annot_dict (template : pdf) (a : annot) : option field :=
  match a with
  | Loose f => Some f
  | FormNode path =>
      match AcroForm template with
      | Some acro => node_at (Fields acro) path
      | None => None
      end
  end.

Definition PdfName_Off : PdfName := "/Off".
Definition PdfName_Yes : PdfName := "/Yes".
Definition PdfName_Btn : PdfName := "/Btn".
Definition PdfName_Widget : PdfName := "/Widget".

Definition set_V (x : option pdfobj) (f : field) : field :=
  Field (T f) (FT f) x (AS f) (AP f) (DA f) (Ff f) (Subtype f) (Kids f).
Definition set_AS (x : option PdfName) (f : field) : field :=
  Field (T f) (FT f) (V f) x (AP f) (DA f) (Ff f) (Subtype f) (Kids f).
Definition set_AP (x : option ap_dict) (f : field) : field :=
  Field (T f) (FT f) (V f) (AS f) x (DA f) (Ff f) (Subtype f) (Kids f).
Definition set_DA (x : option string) (f : field) : field :=
  Field (T f) (FT f) (V f) (AS f) (AP f) x (Ff f) (Subtype f) (Kids f).
Definition set_Ff (x : option Z) (f : field) : field :=
  Field (T f) (FT f) (V f) (AS f) (AP f) (DA f) x (Subtype f) (Kids f).
Definition set_Kids (x : list field) (f : field) : field :=
  Field (T f) (FT f) (V f) (AS f) (AP f) (DA f) (Ff f) (Subtype f) x.

(** ** [is_xfa_pdf], [iter_fields], [clean_field_name] *)

Definition is_xfa_pdf (template : pdf) : bool :=
  match AcroForm template with
  | Some acro => bool_decide (XFA acro ≠ None)
  | None => false
  end.

(** The generator, as the list of what it yields: each node, then the
    nodes under its [Kids], then its next sibling. *)
Fixpoint iter_fields_node (f : field) : list field :=
  f :: (fix kids_of (l : list field) : list field :=
          match l with
          | [] => []
          | k :: l' => iter_fields_node k ++ kids_of l'
          end) (Kids f).

Definition iter_fields (field_list : list field) : list field :=
  flat_map iter_fields_node field_list.

Definition clean_field_name (tval : option string) : option string :=
  match tval with
  | None => None
  | Some t =>
      let name := Py.strip t in
      let name :=
        if Py.startswith name "("%char && Py.endswith name ")"%char
        then Py.slice_1_m1 name else name in
      let name := Py.strip name in
      if Py.truthy name then Some name else None
  end.

(** ** [get_checkbox_on_value] *)

(** [for k in n.keys(): if str(k) != "/Off": return k].  The nodes are
    taken to be well formed ([AP] and [N] dictionaries, [Kids] a list of
    dictionaries), so nothing is raised inside the two [try] blocks. *)
Fixpoint first_on_key (keys : list PdfName) : option PdfName :=
  match keys with
  | [] => None
  | k :: keys' =>
      if bool_decide (k ≠ "/Off") then Some k else first_on_key keys'
  end.

(** [n = getattr(ap, "N", None) if ap else None], as the keys of [n]. *)
Definition normal_keys (f : field) : list PdfName :=
  match AP f with
  | Some ap => default [] (AP_N ap)
  | None => []
  end.

Fixpoint first_on_key_of_kids (kids : list field) : option PdfName :=
  match kids with
  | [] => None
  | kid :: kids' =>
      match first_on_key (normal_keys kid) with
      | Some k => Some k
      | None => first_on_key_of_kids kids'
      end
  end.

Definition get_checkbox_on_value (f : field) : PdfName :=
  match first_on_key (normal_keys f) with
  | Some k => k
  | None =>
      match first_on_key_of_kids (Kids f) with
      | Some k => k
      | None => PdfName_Yes
      end
  end.

(** ** [extract_pdf_fields_all] *)

Inductive ftype := text | checkbox_or_radio.

#[global] Instance ftype_eq_dec : EqDecision ftype.
Proof. solve_decision. Defined.

(** The pair appended to [fields] for one node, if it has a name. *)
Definition field_entry (f : field) : option (string * ftype) :=
  match clean_field_name (T f) with
  | Some nm =>
      Some (nm, if bool_decide (FT f = Some PdfName_Btn)
                then checkbox_or_radio else text)
  | None => None
  end.

Definition widget_entry (a : field) : option (string * ftype) :=
  if bool_decide (Subtype a = Some PdfName_Widget) then field_entry a else None.

(** The pairs of the two harvesting loops: the nodes of the form tree,
    then the annotations of the pages, each read as the dictionary it
    is. *)
Definition harvest (template : pdf) : list (string * ftype) :=
  match AcroForm template with
  | Some acro => omap field_entry (iter_fields (Fields acro))
  | None => []
  end ++ omap (λ a, annot_dict template a ≫= widget_entry)
           (concat (pages template)).

(** One turn of the merging loop over [(merged, order)]. *)
Definition merge_step (st : gmap string ftype * list string)
    (e : string * ftype) : gmap string ftype * list string :=
  let '(merged, order) := st in
  let '(nm, tp) := e in
  match merged !! nm with
  | None => (<[nm := tp]> merged, order ++ [nm])
  | Some old =>
      if bool_decide (old ≠ checkbox_or_radio) &&
         bool_decide (tp = checkbox_or_radio)
      then (<[nm := tp]> merged, order)
      else (merged, order)
  end.

Definition merge_fields (fields : list (string * ftype))
    : gmap string ftype * list string :=
  fold_left merge_step fields (∅, []).

Definition extract_pdf_fields_all (template : pdf)
    : except (list string * gmap string ftype) :=
  match AcroForm template with
  | None => Raise "PDF has no AcroForm fields (not standard fillable)."
  | Some _ =>
      if is_xfa_pdf template
      then Raise "This PDF is XFA. Convert to AcroForm first."
      else let '(merged, order) := merge_fields (harvest template) in
           Ok (order, merged)
  end.

(** ** [_set_da_autosize]: the regular expression
    [(\s)(-?\d+(?:\.\d+)?)\s+Tf\b] and [re.sub(..., count=1)] *)

Module Re.

Definition isdigit (c : ascii) : bool :=
  let n := nat_of_ascii c in (48 <=? n)%nat && (n <=? 57)%nat.

(** [\w]: a letter, a digit or the underscore. *)
Definition isword (c : ascii) : bool :=
  let n := nat_of_ascii c in
  isdigit c || ((65 <=? n)%nat && (n <=? 90)%nat)
  || ((97 <=? n)%nat && (n <=? 122)%nat) || (n =? 95)%nat.

Fixpoint drop_while (p : ascii → bool) (s : list ascii) : list ascii :=
  match s with
  | [] => []
  | c :: s' => if p c then drop_while p s' else s
  end.

(** [\b] right after a word character: the end of the string or a
    character that is not a word character. *)
Definition at_word_end (s : list ascii) : bool :=
  match s with
  | [] => true
  | c :: _ => negb (isword c)
  end.

(** [-?\d+(?:\.\d+)?]: the rest of [s] after the longest number at its
    head.  Every quantifier is greedy and giving characters back never
    helps what follows, so the longest reading is the only one. *)
Definition number (s : list ascii) : option (list ascii) :=
  let s1 := match s with "-"%char :: r => r | _ => s end in
  match s1 with
  | d :: _ =>
      if isdigit d then
        let s2 := drop_while isdigit s1 in
        Some match s2 with
             | "."%char :: d' :: r =>
                 if isdigit d' then drop_while isdigit r else s2
             | _ => s2
             end
      else None
  | [] => None
  end.

(** [\s+Tf\b]: the rest of [s] after it. *)
Definition spaces_Tf (s : list ascii) : option (list ascii) :=
  match s with
  | w :: r =>
      if Py.isspace w then
        match drop_while Py.isspace r with
        | "T"%char :: "f"%char :: rest =>
            if at_word_end rest then Some rest else None
        | _ => None
        end
      else None
  | [] => None
  end.

(** The pattern after its first group [(\s)]: what follows the match. *)
Definition size_Tf (s : list ascii) : option (list ascii) :=
  match number s with
  | Some s' => spaces_Tf s'
  | None => None
  end.

(** The replacement text [0 Tf] after [\g<1>]. *)
Definition zero_Tf : list ascii := ["0"; " "; "T"; "f"]%char.

(** [re.sub(pattern, r"\g<1>0 Tf", s, count=1)] when the pattern occurs:
    the leftmost occurrence is replaced and the rest copied. *)
Fixpoint sub_first (s : list ascii) : option (list ascii) :=
  match s with
  | [] => None
  | c :: r =>
      match (if Py.isspace c then size_Tf r else None) with
      | Some rest => Some (c :: zero_Tf ++ rest)
      | None => cons c <$> sub_first r
      end
  end.

Definition sub (s : string) : string :=
  let l := list_ascii_of_string s in
  string_of_list_ascii (default l (sub_first l)).

End Re.

Section Engine.

(** [PdfString.encode] is pdfrw's; the model keeps the text it encodes
    and takes as a parameter the strings it accepts. *)
Variable encodable : string → bool.

Definition PdfString_encode (s : string) : except string :=
  if encodable s then Ok s else Raise "PdfString.encode failed".

(** [DA] holds the text [_pdfstr_to_text] decodes; the new text is
    stored when it differs and [PdfString.encode] accepts it. *)
Definition _set_da_autosize (f : field) : field :=
  match DA f with
  | None => f
  | Some da_txt =>
      let new_da := Re.sub da_txt in
      if bool_decide (new_da ≠ da_txt) then
        match PdfString_encode new_da with
        | Ok e => set_DA (Some e) f
        | Raise _ => f
        end
      else f
  end.

(** ** [fill_pdf_with_pdfrw] *)

(** The appearance state a button shows for a cell value. *)
Definition button_state (f : field) (value : string) (r : rule) : PdfName :=
  if should_check value r then get_checkbox_on_value f else PdfName_Off.

(** The loop body from [ft = getattr(field, "FT", None)] on, for a node
    named [nm] and the cell value [value]: the node after the body and
    the increment of [filled_count].  Setting an entry to [None] removes
    it.  [_set_da_autosize] raises nothing here, so the [try] around it
    has nothing to catch; [PdfString.encode(value)] is outside any [try]. *)
Definition write_field (rules : gmap string rule) (force_autosize_text : bool)
    (nm value : string) (f : field) : except (field * nat) :=
  if bool_decide (FT f = Some PdfName_Btn) then
    let r := default DEFAULT_RULE (rules !! nm) in
    let st := button_state f value r in
    let f := set_V (Some (PName st)) f in
    let f :=
      match Kids f with
      | [] => set_AS (Some st) f
      | kids => set_Kids (set_AS (Some st) <$> kids) f
      end in
    Ok (f, 1)
  else
    let f := if force_autosize_text then _set_da_autosize f else f in
    v ← PdfString_encode value;
    let f := set_V (Some (PString v)) f in
    let f := set_AP None f in
    let f := set_Ff None f in
    Ok (f, 1).

(** The whole loop body; the two [continue]s leave the node as it is. *)
Definition fill_field (data_row mapping : gmap string string)
    (rules : gmap string rule) (force_autosize_text : bool)
    (f : field) : except (field * nat) :=
  match clean_field_name (T f) with
  | None => Ok (f, 0)
  | Some nm =>
      match mapping !! nm with
      | None => Ok (f, 0)
      | Some excel_col =>
          if negb (Py.truthy excel_col)
             || bool_decide (data_row !! excel_col = None)
          then Ok (f, 0)
          else write_field rules force_autosize_text nm
                 (default "" (data_row !! excel_col)) f
      end
  end.

(** The loop over [iter_fields(all_fields)].  The generator yields a
    node, the body runs on it and may write the [AS] of its kids, and
    only then are the kids yielded, already carrying that [AS].  The
    recursion descends the kids of the node as it was and takes as
    [cur_AS] what [AS] holds when the walk reaches the node. *)
Fixpoint fill_node (data_row mapping : gmap string string)
    (rules : gmap string rule) (force_autosize_text : bool)
    (cur_AS : option PdfName) (f : field) : except (field * nat) :=
  match f with
  | Field t ft v _ ap da ff sub kids =>
      '(f1, c) ← fill_field data_row mapping rules force_autosize_text
                   (Field t ft v cur_AS ap da ff sub kids);
      '(kids', n) ←
        (fix walk (orig now : list field) : except (list field * nat) :=
           match orig, now with
           | k :: orig', k1 :: now' =>
               '(k', a) ← fill_node data_row mapping rules
                            force_autosize_text (AS k1) k;
               '(r, b) ← walk orig' now';
               Ok (k' :: r, a + b)
           | _, _ => Ok ([], 0)
           end) kids (Kids f1);
      Ok (set_Kids kids' f1, c + n)
  end.

(** The walk over the top-level nodes, in order. *)
Fixpoint fill_fields (data_row mapping : gmap string string)
    (rules : gmap string rule) (force_autosize_text : bool)
    (l : list field) : except (list field * nat) :=
  match l with
  | [] => Ok ([], 0)
  | f :: l' =>
      '(f', a) ← fill_node data_row mapping rules force_autosize_text (AS f) f;
      '(r, b) ← fill_fields data_row mapping rules force_autosize_text l';
      Ok (f' :: r, a + b)
  end.

(** The files of the working directory, by name; a file holds the
    document [PdfReader] would parse from it.  The call returns the files
    it leaves and either the count or the exception; [PdfWriter().write]
    is its last step.  The pages are written with the annotation lists
    they had: an annotation that is a node of the form tree is written as
    the loop left that node, since it is the same object ([annot_dict]
    reads it in the written form tree). *)
Definition fill_pdf_with_pdfrw (fs : gmap string pdf)
    (template_path output_path : string)
    (data_row mapping : gmap string string) (rules : gmap string rule)
    (force_autosize_text : bool) : gmap string pdf * except nat :=
  match fs !! template_path with
  | None => (fs, Raise "PdfReader: cannot read the template")
  | Some template =>
      match AcroForm template with
      | None => (fs, Raise "No AcroForm found in PDF.")
      | Some acro =>
          if is_xfa_pdf template
          then (fs, Raise "This PDF is XFA. Convert to AcroForm first.")
          else
            match Fields acro with
            | [] => (fs, Raise "AcroForm exists, but no fields found in AcroForm.Fields")
            | all_fields =>
                match fill_fields data_row mapping rules
                        force_autosize_text all_fields with
                | Raise e => (fs, Raise e)
                | Ok (fields', filled_count) =>
                    let acro' := AcroFormDict (XFA acro) (Some true) fields' in
                    (<[output_path := Pdf (Some acro') (pages template)]> fs,
                     Ok filled_count)
                end
            end
      end
  end.

End Engine.

(** ** [app.py]: the batch loop of "Generate ZIP (all rows)" *)

Record report_row := ReportRow {
  row : nat;
  file : string;
  status : string;
  filled_fields : nat;
  error : string
}.

Record batch_state := BatchState {
  files : gmap string pdf;
  used_names : gset string;
  out_files : list (string * pdf);
  report_rows : list report_row
}.

Section Batch.

Variable encodable : string → bool.

(** The file name chosen for a row (the name column or [row_NNN], with
    a numeric suffix while the name is taken): a function of the row
    number, the row and the names used so far, whose text the report
    only copies. *)
Variable pick_name : nat → gmap string string → gset string → string.

Variables (pdf_path : string) (mapping : gmap string string)
          (rules : gmap string rule).

(** What the fill call of the row at index [i] does in state [st]. *)
Definition row_fill (st : batch_state) (i : nat) (r : gmap string string)
    : gmap string pdf * except nat :=
  fill_pdf_with_pdfrw encodable (files st) pdf_path
    (pick_name (i + 1) r (used_names st)) r mapping rules true.

(** One turn of [for i in range(len(df_master))]. *)
Definition batch_body (st : batch_state) (i : nat) (r : gmap string string)
    : batch_state :=
  let row_no := i + 1 in
  let fname := pick_name row_no r (used_names st) in
  let used := {[fname]} ∪ used_names st in
  match row_fill st i r with
  | (fs', Ok filled) =>
      let status := if (0 <? filled)%nat then "OK" else "ZERO_FILLED" in
      let report := report_rows st ++ [ReportRow row_no fname status filled ""] in
      match fs' !! fname with
      | Some data => BatchState fs' used (out_files st ++ [(fname, data)]) report
      | None =>
          BatchState fs' used (out_files st)
            (report ++ [ReportRow row_no fname "ERROR" 0 "No such file or directory"])
      end
  | (fs', Raise e) =>
      BatchState fs' used (out_files st)
        (report_rows st ++ [ReportRow row_no fname "ERROR" 0 e])
  end.

Fixpoint batch_loop (i : nat) (rows : list (gmap string string))
    (st : batch_state) : batch_state :=
  match rows with
  | [] => st
  | r :: rows' => batch_loop (S i) rows' (batch_body st i r)
  end.

(** The outcome of each row's fill call, in row order. *)
Fixpoint fill_outcomes (i : nat) (rows : list (gmap string string))
    (st : batch_state) : list (except nat) :=
  match rows with
  | [] => []
  | r :: rows' => (row_fill st i r).2 :: fill_outcomes (S i) rows' (batch_body st i r)
  end.

(** The state the button handler starts the loop from. *)
Definition batch_init (fs : gmap string pdf) : batch_state :=
  BatchState fs ∅ [] [].

End Batch.

(** How a report entry relates to the outcome of its row's fill call. *)
Definition entry_consistent (e : report_row) (o : except nat) : Prop :=
  (status e = "OK" ↔ ∃ n, o = Ok n ∧ 0 < n) ∧
  (status e = "ZERO_FILLED" ↔ o = Ok 0) ∧
  (status e = "ERROR" ↔ ∃ msg, o = Raise msg) ∧
  (∀ n, o = Ok n → filled_fields e = n) ∧
  (filled_fields e = 0 → status e ≠ "OK").

(** ** [app.py]: export and import of the mapping JSON *)

Record session := Session {
  ss_mapping : gmap string string;
  ss_rules : gmap string rule;
  ss_last_import_hash : option string
}.

Record payload := Payload {
  pdf_hash : string;
  excel_hash : string;
  pdf_name : string;
  excel_name : string;
  pl_mapping : gmap string string;
  pl_rules : gmap string rule;
  exported_at : string
}.

Definition export_payload (st : session) (hashes names : string * string)
    (now_ts : string) : payload :=
  Payload hashes.1 hashes.2 names.1 names.2 (ss_mapping st) (ss_rules st) now_ts.

(** An uploaded file: the JSON text of an object, or bytes [json.loads]
    rejects.  [json.loads (json.dumps p)] gives [p] back, so a file
    written by the export button is [JsonText] of the exported payload. *)
Inductive upload :=
  | JsonText (obj : payload)
  | NotJson.

(** The names bound in the module [app.py] when the import handler runs:
    what it imports, what it defines and what it has assigned so far. *)
Definition app_globals : list string :=
  [ "os"; "re"; "io"; "json"; "tempfile"; "hashlib"; "datetime";
    "Dict"; "List"; "Tuple"; "st"; "pd"; "convert_from_path"; "plt"; "patches";
    "load_table_any"; "extract_pdf_fields_all"; "build_field_rect_index";
    "get_page_mediabox"; "fill_pdf_with_pdfrw"; "make_zip_bytes";
    "now_ts"; "sha256_bytes"; "_clean_rule_token"; "safe_filename";
    "colA"; "colB"; "pdf_file"; "data_file"; "tmp_dir"; "pdf_path";
    "data_name"; "pdf_bytes"; "excel_bytes"; "f"; "df_master"; "sheets";
    "sname"; "sdf"; "pdf_fields"; "pdf_field_types"; "rect_index";
    "page_count"; "export_payload"; "imp"; "raw"; "import_hash"; "obj" ].

Definition normalizer : Type :=
  payload → list string → list string →
  gmap string string * gmap string rule * list string.

Section ImportHandler.

(** The names the module binds, and what the name
    [normalize_imported_schema] denotes in a module that binds it. *)
Variable globals : list string.
Variable normalize_imported_schema : normalizer.

(** Evaluating the call [normalize_imported_schema(obj=..., ...)]: the
    name is looked up among the module's globals first (the builtins
    have no such name). *)
Definition call_normalize (obj : payload) (df_columns pdf_fields : list string)
    : except (gmap string string * gmap string rule * list string) :=
  if bool_decide ("normalize_imported_schema" ∈ globals)
  then Ok (normalize_imported_schema obj df_columns pdf_fields)
  else Raise "name 'normalize_imported_schema' is not defined".

(** The handler of the import uploader: the session it leaves and the
    message it shows.  Whatever is raised inside its [try] ends in
    [st.error(f"Invalid JSON: {e}")]. *)
Definition import_handler (st : session) (import_hash : string) (raw : upload)
    (df_columns pdf_fields : list string) : session * string :=
  if bool_decide (ss_last_import_hash st = Some import_hash)
  then (st, "Project JSON already imported in this session.")
  else
    let st := Session (ss_mapping st) (ss_rules st) (Some import_hash) in
    match raw with
    | NotJson => (st, "Invalid JSON: Expecting value")
    | JsonText obj =>
        match call_normalize obj df_columns pdf_fields with
        | Ok (new_mapping, new_rules, warn) =>
            (Session new_mapping new_rules (ss_last_import_hash st),
             "Imported")
        | Raise e => (st, "Invalid JSON: " +:+ e)
        end
    end.

End ImportHandler.

(** Modelled from the spec: [normalize_imported_schema], which the import
    handler calls and no source file defines.  The specification asks
    that a mapping entry whose column is not in the current data source,
    and a rule whose field is not in the current template, be dropped
    with a warning. *)
Definition spec_normalize : normalizer := λ obj df_columns pdf_fields,
  (filter (λ kv, kv.2 ∈ df_columns) (pl_mapping obj),
   filter (λ kv, kv.1 ∈ pdf_fields) (pl_rules obj),
   (map_to_list (filter (λ kv, kv.2 ∉ df_columns) (pl_mapping obj))).*1 ++
   (map_to_list (filter (λ kv, kv.1 ∉ pdf_fields) (pl_rules obj))).*1).

(** ** Statements compared with the code *)

(** Classification by letter case alone: a value is checked when it
    equals a checked token up to case, else unchecked when it equals an
    unchecked token up to case, else the rule's default polarity.  *)
Definition classified_by_case_only (value : string) (r : rule) : Prop :=
  (matches_nocase value (rule_checked_values r) → should_check value r = true) ∧
  (¬ matches_nocase value (rule_checked_values r) →
   matches_nocase value (rule_unchecked_values r) →
   should_check value r = false) ∧
  (¬ matches_nocase value (rule_checked_values r) →
   ¬ matches_nocase value (rule_unchecked_values r) →
   should_check value r = default_polarity r).

(** The names of a sequence, each once, at the place of its first
    occurrence. *)
Fixpoint first_seen (names : list string) : list string :=
  match names with
  | [] => []
  | nm :: rest => nm :: filter (λ x, x ≠ nm) (first_seen rest)
  end.

(** Some node of the template carries the name [nm] and is a button: a
    node of the form tree, or a widget annotation of a page. *)
Definition has_button_node (template : pdf) (nm : string) : Prop :=
  (∃ acro f, AcroForm template = Some acro ∧ f ∈ iter_fields (Fields acro) ∧
             clean_field_name (T f) = Some nm ∧ FT f = Some PdfName_Btn) ∨
  (∃ a g, a ∈ concat (pages template) ∧ annot_dict template a = Some g ∧
          Subtype g = Some PdfName_Widget ∧
          clean_field_name (T g) = Some nm ∧ FT g = Some PdfName_Btn).

(** The end-to-end example of the specification: a text field [Name] and
    a button [Agree] whose appearance keys are [/Off] and [/Yes], mapped
    to the columns [FullName] and [Consent]. *)
Definition example_Name : field :=
  Field (Some "(Name)") (Some "/Tx") None None None
        (Some "/Helv 10 Tf 0 g") None None [].

Definition example_Agree : field :=
  Field (Some "(Agree)") (Some "/Btn") None None
        (Some (ApDict (Some ["/Off"; "/Yes"]))) None None None [].

Definition example_template : pdf :=
  Pdf (Some (AcroFormDict None None [example_Name; example_Agree])) [].

Definition example_mapping : gmap string string :=
  <["Name" := "FullName"]> (<["Agree" := "Consent"]> ∅).

Definition example_row (consent : string) : gmap string string :=
  <["FullName" := "Ada Lovelace"]> (<["Consent" := consent]> ∅).

(** No rule configured, and a row without columns. *)
Definition no_rules : gmap string rule := ∅.
Definition empty_row : gmap string string := ∅.

(** The encoder that accepts every string. *)
Definition encode_all : string → bool := λ _, true.

(** A mapped field whose column is absent from the row is processed as
    if the cell were the empty string. *)
Definition missing_column_is_blank (encodable : string → bool)
    (data_row mapping : gmap string string) (rules : gmap string rule)
    (force_autosize_text : bool) (f : field) : Prop :=
  ∀ nm col,
    clean_field_name (T f) = Some nm → mapping !! nm = Some col →
    data_row !! col = None →
    fill_field encodable data_row mapping rules force_autosize_text f
    = write_field encodable rules force_autosize_text nm "" f.

(** The pattern [(\s)(-?\d+(?:\.\d+)?)\s+Tf\b], read as a description of
    the text it matches. *)
Module Pattern.

Definition digits (l : list ascii) : Prop :=
  l ≠ [] ∧ Forall (λ c, Re.isdigit c = true) l.

(** [-?\d+(?:\.\d+)?] *)
Definition number (num : list ascii) : Prop :=
  ∃ sign int frac,
    num = sign ++ int ++ frac ∧
    (sign = [] ∨ sign = ["-"%char]) ∧
    digits int ∧
    (frac = [] ∨ ∃ d, frac = "."%char :: d ∧ digits d).

(** [\s+] *)
Definition spaces (sep : list ascii) : Prop :=
  sep ≠ [] ∧ Forall (λ c, Py.isspace c = true) sep.

(** [s] is [pre], then a match made of the whitespace [w], the number
    [num], the whitespace [sep] and [Tf] at a word boundary, then
    [post]. *)
Definition occurrence (s pre : list ascii) (w : ascii)
    (num sep post : list ascii) : Prop :=
  s = pre ++ w :: num ++ sep ++ ["T"; "f"]%char ++ post ∧
  Py.isspace w = true ∧ number num ∧ spaces sep ∧
  Re.at_word_end post = true.

(** A match starts at offset [n] of [s]. *)
Definition occurs_at (s : list ascii) (n : nat) : Prop :=
  ∃ pre w num sep post, occurrence s pre w num sep post ∧ length pre = n.

End Pattern.

(** The working directory with the example template in it, and one with
    a template whose form root has no fields. *)
Definition example_files : gmap string pdf :=
  {[ "template.pdf" := example_template ]}.

Definition no_fields_template : pdf :=
  Pdf (Some (AcroFormDict None None [])) [].

Definition no_fields_files : gmap string pdf :=
  {[ "template.pdf" := no_fields_template ]}.

(** A file-name choice for the examples: the [FullName] cell. *)
Definition name_by_FullName (row_no : nat) (r : gmap string string)
    (used : gset string) : string :=
  default "row" (r !! "FullName") +:+ ".pdf".
From stdpp Require Import pretty.


(** ** Further statements about the walker and the fill engine *)

(** [g] is [f] or a node below [f] along [Kids]. *)
Inductive descends : field → field → Prop :=
  | descends_self f : descends f f
  | descends_kid f k g : k ∈ Kids f → descends k g → descends f g.

(** The cell the fill loop resolves for a node, with the node's clean
    name: [None] is one of the loop's two [continue]s. *)
Definition resolve (data_row mapping : gmap string string) (f : field)
    : option (string * string) :=
  match clean_field_name (T f) with
  | None => None
  | Some nm =>
      match mapping !! nm with
      | None => None
      | Some excel_col =>
          if Py.truthy excel_col
          then match data_row !! excel_col with
               | Some value => Some (nm, value)
               | None => None
               end
          else None
      end
  end.

(** The loop body reaches its writing part on [f]. *)
Definition fillable (data_row mapping : gmap string string) (f : field) : Prop :=
  is_Some (resolve data_row mapping f).

#[global] Instance fillable_dec data_row mapping f :
  Decision (fillable data_row mapping f).
Proof. unfold fillable. apply _. Defined.

(** How many nodes of a list the fill loop writes. *)
Definition count_fillable (data_row mapping : gmap string string)
    (l : list field) : nat :=
  length (filter (fillable data_row mapping) l).

(** What the name, type, subtype and number of kids of a node are. *)
Definition skeleton (f : field) : option string * option PdfName * option PdfName * nat :=
  (T f, FT f, Subtype f, length (Kids f)).

(** ** Statements about strings *)

Definition first_char (s : string) : option ascii :=
  match s with
  | String c _ => Some c
  | EmptyString => None
  end.

Fixpoint last_char (s : string) : option ascii :=
  match s with
  | EmptyString => None
  | String c EmptyString => Some c
  | String _ s' => last_char s'
  end.

(** Neither the first nor the last character of [s] is whitespace. *)
Definition edges_not_space (s : string) : Prop :=
  (∀ c, first_char s = Some c → Py.isspace c = false) ∧
  (∀ c, last_char s = Some c → Py.isspace c = false).

(** Every character of [s] is whitespace. *)
Fixpoint all_space (s : string) : bool :=
  match s with
  | EmptyString => true
  | String c s' => Py.isspace c && all_space s'
  end.

(** What a fill call that returns has done to the node [g], which is
    [g'] in the written document: the skeleton is kept; a node the loop
    skips keeps its value, appearance, default appearance and flags; a
    button gets its state as value and keeps the rest; a text node gets
    the cell as value, loses its appearance and its flags, and has the
    auto-sized default appearance. *)
Definition node_effect (encodable : string → bool)
    (data_row mapping : gmap string string) (rules : gmap string rule)
    (force_autosize_text : bool) (g g' : field) : Prop :=
  skeleton g' = skeleton g ∧
  match resolve data_row mapping g with
  | None => V g' = V g ∧ AP g' = AP g ∧ DA g' = DA g ∧ Ff g' = Ff g
  | Some (nm, value) =>
      if bool_decide (FT g = Some PdfName_Btn)
      then V g' = Some (PName (button_state g value
                                 (default DEFAULT_RULE (rules !! nm)))) ∧
           AP g' = AP g ∧ DA g' = DA g ∧ Ff g' = Ff g
      else V g' = Some (PString value) ∧ AP g' = None ∧ Ff g' = None ∧
           DA g' = DA (if force_autosize_text
                       then _set_da_autosize encodable g else g)
  end.

(** The cell of every text node of [l] that the loop writes can be
    encoded. *)
Definition cells_encodable (encodable : string → bool)
    (data_row mapping : gmap string string) (l : list field) : Prop :=
  ∀ g nm value, g ∈ l → resolve data_row mapping g = Some (nm, value) →
                FT g ≠ Some PdfName_Btn → encodable value = true.

(** ** [app.py]: [safe_filename] *)

(** [re.sub(r"[...]+", rep, s)] for a character class [p] and a
    one-character replacement: every maximal run of characters of the
    class becomes one [rep].  A character of the class is written out, as
    [rep], when it is the last of its run. *)
Fixpoint sub_runs (p : ascii → bool) (rep : ascii) (s : string) : string :=
  match s with
  | EmptyString => EmptyString
  | String c s' =>
      if p c then
        match s' with
        | String c' _ =>
            if p c' then sub_runs p rep s' else String rep (sub_runs p rep s')
        | EmptyString => String rep EmptyString
        end
      else String c (sub_runs p rep s')
  end.

(** The characters [[\w\-\. ]] that [safe_filename] keeps, among the
    code points below 128 ([\w] there: a letter, a digit or the
    underscore). *)
Definition name_char (c : ascii) : bool :=
  Re.isword c || bool_decide (c = "-"%char) || bool_decide (c = "."%char)
  || bool_decide (c = " "%char).

(** [s[:n]]. *)
Fixpoint str_take (n : nat) (s : string) : string :=
  match n, s with
  | S n', String c s' => String c (str_take n' s')
  | _, _ => EmptyString
  end.

Definition safe_filename (s : string) (max_len : nat) : string :=
  let s := Py.strip s in
  let s := sub_runs (λ c, negb (name_char c)) "_" s in
  let s := Py.strip (sub_runs Py.isspace " " s) in
  if Py.truthy s then Py.rstrip (str_take max_len s) else "row".

(** Every character of [s] satisfies [p]. *)
Fixpoint str_forall (p : ascii → bool) (s : string) : bool :=
  match s with
  | EmptyString => true
  | String c s' => p c && str_forall p s'
  end.

(** The strings the embedding stands for: every character is a code
    point below 128. *)
Definition ascii_only (s : string) : bool :=
  str_forall (λ c, (nat_of_ascii c <? 128)%nat) s.

(** ** [app.py]: the file names of the batch *)

(** [f"{n:03d}"]. *)
Definition pad3 (n : nat) : string :=
  let d := pretty n in
  match String.length d with
  | 1 => "00" +:+ d
  | 2 => "0" +:+ d
  | _ => d
  end.

(** The base name of a row: the cell of the name column made safe, or
    [row_NNN] when there is no name column or the cell is blank. *)
Definition base_name (name_col : option string) (row_no : nat)
    (r : gmap string string) : string :=
  let cell := default "" (name_col ≫= λ c, r !! c) in
  if bool_decide (name_col ≠ None ∧ name_col ≠ Some "")
     && Py.truthy (Py.strip cell)
  then safe_filename cell 70
  else "row_" +:+ pad3 row_no.

(** [f"{base}_{k}.pdf"]. *)
Definition suffixed (base : string) (k : nat) : string :=
  base +:+ "_" +:+ pretty k +:+ ".pdf".

(** [while f"{base}_{k}.pdf" in used_names: k += 1], for at most [fuel]
    tests of the condition: the [k] the loop ends with. *)
Fixpoint first_unused (fuel k : nat) (base : string) (used : gset string)
    : option nat :=
  match fuel with
  | 0 => None
  | S fuel' =>
      if bool_decide (suffixed base k ∈ used)
      then first_unused fuel' (S k) base used
      else Some k
  end.

(** The name a row gets, given the names taken.  One test more than
    there are names taken is enough for the loop. *)
Definition unique_name (base : string) (used : gset string) : option string :=
  let fname := base +:+ ".pdf" in
  if bool_decide (fname ∈ used)
  then suffixed base <$> first_unused (S (size used)) 2 base used
  else Some fname.

(** The file name of a row whose base name is [base], given the names
    taken so far. *)
Definition name_for (base : string) (used : gset string) : string :=
  default (base +:+ ".pdf") (unique_name base used).

Definition pick_name (name_col : option string) (row_no : nat)
    (r : gmap string string) (used : gset string) : string :=
  name_for (base_name name_col row_no r) used.

(** ** [app.py]: the pages of the field list *)

(** [max(1, (total + page_size - 1) // page_size)]. *)
Definition max_page (total page_size : nat) : nat :=
  Nat.max 1 ((total + page_size - 1) / page_size).

(** [filtered[start:end]] for the page numbered [page], from 1. *)
Definition page_items {A} (filtered : list A) (page_size page : nat) : list A :=
  let total := length filtered in
  let start := (page - 1) * page_size in
  let end_ := Nat.min total (start + page_size) in
  take (end_ - start) (drop start filtered).

(** ** [storage.py] *)

(** [str.isalnum] on one character, for code points below 128. *)
Definition isalnum (c : ascii) : bool :=
  let n := nat_of_ascii c in
  ((48 <=? n)%nat && (n <=? 57)%nat) || ((65 <=? n)%nat && (n <=? 90)%nat)
  || ((97 <=? n)%nat && (n <=? 122)%nat).

Fixpoint str_filter (p : ascii → bool) (s : string) : string :=
  match s with
  | EmptyString => EmptyString
  | String c s' => if p c then String c (str_filter p s') else str_filter p s'
  end.

(** [os.path.join(a, b)] with the separator [/]. *)
Definition path_join (a b : string) : string :=
  if Py.startswith b "/" then b
  else if Py.truthy a && negb (Py.endswith a "/") then a +:+ "/" +:+ b
  else a +:+ b.

(** A value of a project payload, as [json.dump] writes it and
    [json.load] reads it back: a string, an integer, or any other value,
    kept as its JSON text. *)
Inductive json :=
  | JStr (s : string)
  | JInt (n : Z)
  | JOther (text : string).

Section Storage.

(** [PROJECT_DIR], read from the environment when the module loads; the
    clock of [time.time()]. *)
Variable PROJECT_DIR : string.

Definition project_path (project_id : string) : string :=
  path_join PROJECT_DIR (str_filter isalnum project_id +:+ ".json").

(** The files under [PROJECT_DIR] hold the dictionaries dumped to them. *)
Definition save_project (disk : gmap string (gmap string json))
    (now : Z) (project_id : string) (payload : gmap string json)
    : gmap string (gmap string json) * string :=
  let payload := <["project_id" := JStr project_id]> payload in
  let payload := <["updated_at" := JInt now]> payload in
  let p := project_path project_id in
  (<[p := payload]> disk, p).

Definition load_project (disk : gmap string (gmap string json))
    (project_id : string) : option (gmap string json) :=
  disk !! project_path project_id.

End Storage.

(** ** The batch loop and the single fill call *)

(** What a fill call on the files [fs] alone, writing under the name
    [nm], would add to [out_files] for the row [r]. *)
Definition archived (encodable : string → bool) (fs : gmap string pdf)
    (pdf_path : string) (mapping : gmap string string)
    (rules : gmap string rule) (nm : string) (r : gmap string string)
    : option (string * pdf) :=
  match fill_pdf_with_pdfrw encodable fs pdf_path nm r mapping rules true with
  | (fs', Ok _) => (λ data, (nm, data)) <$> fs' !! nm
  | (_, Raise _) => None
  end.

(** What the batch loop keeps true of its state when no name is given
    twice. *)
Definition names_inv (st : batch_state) : Prop :=
  used_names st = list_to_set (file <$> report_rows st) ∧
  NoDup (file <$> report_rows st) ∧
  (out_files st).*1
  = file <$> filter (λ e, status e ≠ "ERROR") (report_rows st) ∧
  Forall (λ x, files st !! x.1 = Some x.2) (out_files st).

(** The example template with a page that lists its two fields as
    widget annotations, and the working directory with it. *)
Definition example_paged : pdf :=
  Pdf (Some (AcroFormDict None None [example_Name; example_Agree]))
      [[FormNode [0]; FormNode [1]]].

Definition example_paged_files : gmap string pdf :=
  {[ "template.pdf" := example_paged ]}.

(** An empty project directory and an empty payload. *)
Definition empty_disk : gmap string (gmap string json) := ∅.
Definition empty_payload : gmap string json := ∅.

(** * Properties *)

(** ** Value classification *)

Lemma isspace_lower_char c : Py.isspace (Py.lower_char c) = Py.isspace c.
Proof. by destruct c as [[] [] [] [] [] [] [] []]. Qed.

Lemma lower_lstrip s : Py.lower (Py.lstrip s) = Py.lstrip (Py.lower s).
Proof.
  induction s as [|c s IH]; [done|]. simpl.
  rewrite isspace_lower_char. by destruct (Py.isspace c).
Qed.

Lemma lower_rstrip s : Py.lower (Py.rstrip s) = Py.rstrip (Py.lower s).
Proof.
  induction s as [|c s IH]; [done|]. simpl.
  rewrite <- IH, isspace_lower_char.
  destruct (Py.rstrip s); simpl; [by destruct (Py.isspace c) | done].
Qed.

Lemma norm_lower s : norm s = Py.strip (Py.lower s).
Proof. unfold norm, Py.strip. by rewrite lower_rstrip, lower_lstrip. Qed.

Lemma matches_nocase_matches value tokens :
  matches_nocase value tokens → matches value tokens.
Proof.
  intros (t & Ht & Heq). exists t. split; [done|].
  by rewrite !norm_lower, Heq.
Qed.

Lemma elem_of_norm_fmap value tokens :
  norm value ∈ norm <$> default [] tokens ↔ matches value tokens.
Proof.
  unfold matches. rewrite list_elem_of_fmap.
  split; intros (t & H1 & H2); exists t; by split.
Qed.

(** The three branches of [should_check], by the bucket each answers. *)
Lemma should_check_bucket value r b :
  in_bucket value r b → should_check value r = bucket_result r b.
Proof.
  unfold should_check, default_polarity.
  destruct b; simpl; rewrite <- !elem_of_norm_fmap.
  - intros H. by rewrite bool_decide_eq_true_2.
  - intros [H1 H2].
    by rewrite (bool_decide_eq_false_2 _ H1), (bool_decide_eq_true_2 _ H2).
  - intros [H1 H2].
    rewrite (bool_decide_eq_false_2 _ H1), (bool_decide_eq_false_2 _ H2).
    unfold default_polarity. by destruct (bool_decide _).
Qed.

Lemma matches_or_not value tokens :
  matches value tokens ∨ ¬ matches value tokens.
Proof.
  rewrite <- elem_of_norm_fmap.
  destruct (decide (norm value ∈ norm <$> default [] tokens)); [by left | by right].
Qed.

Lemma bucket_total value r : ∃ b, in_bucket value r b.
Proof.
  destruct (matches_or_not value (rule_checked_values r)) as [Hc|Hc];
    [by exists Checked|].
  destruct (matches_or_not value (rule_unchecked_values r)) as [Hu|Hu];
    [by exists Unchecked | by exists Default].
Qed.

Lemma bucket_unique value r b1 b2 :
  in_bucket value r b1 → in_bucket value r b2 → b1 = b2.
Proof. destruct b1, b2; simpl; tauto. Qed.

(** C1, as amended: for every rule and every value, exactly one of the
    three buckets holds the value, where a value matches a token when the
    two are equal after both are trimmed of surrounding whitespace and
    lower-cased; [should_check] answers checked for the checked bucket,
    unchecked for the unchecked bucket and the rule's default polarity
    otherwise; a match up to letter case alone with a checked token is
    such a match; and two runs on the same value and rule agree. *)
Theorem should_check_total_deterministic (value : string) (r : rule) :
  (∃ b, in_bucket value r b ∧ ∀ b', in_bucket value r b' → b' = b) ∧
  (∀ b, in_bucket value r b → should_check value r = bucket_result r b) ∧
  (matches_nocase value (rule_checked_values r) → should_check value r = true) ∧
  (∀ out1 out2, out1 = should_check value r → out2 = should_check value r →
                out1 = out2).
Proof.
  split; [|split; [|split]].
  - destruct (bucket_total value r) as [b Hb]. exists b. split; [done|].
    intros b' Hb'. by eapply bucket_unique.
  - apply should_check_bucket.
  - intros H. apply (should_check_bucket value r Checked).
    by apply matches_nocase_matches.
  - intros out1 out2 H1 H2. congruence.
Qed.

(** C1, as stated, fails on a value with surrounding whitespace: [" yes"]
    equals no token of the default rule up to case, so the default
    polarity, off, should apply, yet [should_check] trims the value and
    answers checked. *)
Lemma should_check_not_by_case_only :
  ¬ classified_by_case_only " yes" DEFAULT_RULE.
Proof.
  intros (_ & _ & H).
  assert (Hno : ∀ tokens,
    Forall (λ t, Py.lower " yes" ≠ Py.lower t) (default [] tokens) →
    ¬ matches_nocase " yes" tokens).
  { intros tokens HF (t & Ht & Heq).
    rewrite Forall_forall in HF. by apply (HF t). }
  assert (Hc : ¬ matches_nocase " yes" (rule_checked_values DEFAULT_RULE)).
  { apply Hno. apply (bool_decide_unpack _). by vm_compute. }
  assert (Hu : ¬ matches_nocase " yes" (rule_unchecked_values DEFAULT_RULE)).
  { apply Hno. apply (bool_decide_unpack _). by vm_compute. }
  specialize (H Hc Hu). by vm_compute in H.
Qed.

(** ** On-token discovery *)

Lemma first_on_key_None keys :
  first_on_key keys = None ↔ Forall (λ k, k = PdfName_Off) keys.
Proof.
  induction keys as [|k keys IH]; simpl.
  - split; [constructor | done].
  - case_bool_decide as Hk.
    + split; [done|]. intros HF. by inversion HF.
    + rewrite IH. split.
      * by constructor.
      * intros HF. by inversion HF.
Qed.

Lemma first_on_key_Some keys k :
  first_on_key keys = Some k ↔
  ∃ pre post, keys = pre ++ k :: post ∧
              Forall (λ x, x = PdfName_Off) pre ∧ k ≠ PdfName_Off.
Proof.
  induction keys as [|x keys IH]; simpl.
  - split; [done|]. intros (pre & post & H & _). by destruct pre.
  - case_bool_decide as Hx.
    + split.
      * intros [= ->]. exists [], keys. split; [done|]. split; [constructor | done].
      * intros (pre & post & Heq & Hpre & Hk).
        destruct pre as [|y pre]; simplify_eq/=; [done|].
        by inversion Hpre.
    + rewrite IH. split.
      * intros (pre & post & -> & Hpre & Hk).
        exists (x :: pre), post. split; [done|]. split; [by constructor | done].
      * intros (pre & post & Heq & Hpre & Hk).
        destruct pre as [|y pre]; simplify_eq/=.
        exists pre, post. split; [done|]. split; [by inversion Hpre | done].
Qed.

Lemma first_on_key_elem keys k : first_on_key keys = Some k → k ∈ keys.
Proof.
  rewrite first_on_key_Some. intros (pre & post & -> & _).
  apply elem_of_app. right. by left.
Qed.

Lemma first_on_key_not_Off keys k : first_on_key keys = Some k → k ≠ PdfName_Off.
Proof. rewrite first_on_key_Some. by intros (_ & _ & _ & _ & H). Qed.

Lemma first_on_key_of_kids_None kids :
  first_on_key_of_kids kids = None ↔
  Forall (λ kid, Forall (λ k, k = PdfName_Off) (normal_keys kid)) kids.
Proof.
  induction kids as [|kid kids IH]; simpl.
  - split; [constructor | done].
  - destruct (first_on_key (normal_keys kid)) as [k|] eqn:Hkid.
    + split; [done|]. intros HF. inversion HF as [|?? Hhd _]; subst.
      apply first_on_key_None in Hhd. congruence.
    + apply first_on_key_None in Hkid. rewrite IH. split.
      * by constructor.
      * intros HF. by inversion HF.
Qed.

Lemma first_on_key_of_kids_Some kids k :
  first_on_key_of_kids kids = Some k ↔
  ∃ before kid after, kids = before ++ kid :: after ∧
    Forall (λ c, Forall (λ x, x = PdfName_Off) (normal_keys c)) before ∧
    first_on_key (normal_keys kid) = Some k.
Proof.
  induction kids as [|c kids IH]; simpl.
  - split; [done|]. intros (before & ? & ? & H & _). by destruct before.
  - destruct (first_on_key (normal_keys c)) as [k'|] eqn:Hc.
    + split.
      * intros [= ->]. exists [], c, kids. split; [done|]. split; [constructor | done].
      * intros (before & kid & after & Heq & Hbefore & Hk).
        destruct before as [|y before]; simplify_eq/=; [done|].
        inversion Hbefore as [|?? Hhd _]; subst.
        apply first_on_key_None in Hhd. congruence.
    + rewrite IH. split.
      * intros (before & kid & after & -> & Hbefore & Hk).
        exists (c :: before), kid, after. split; [done|]. split; [|done].
        constructor; [|done]. by apply first_on_key_None.
      * intros (before & kid & after & Heq & Hbefore & Hk).
        destruct before as [|y before]; simplify_eq/=.
        exists before, kid, after. split; [done|]. split; [by inversion Hbefore | done].
Qed.

(** C2: the on-token of a node is, in this order, the first key other
    than [/Off] among the keys of its own normal-appearance dictionary;
    else the first such key of the first kid, in [Kids] order, whose
    normal-appearance dictionary has one; else [/Yes].  What is returned
    is a key of one of these dictionaries as it stands there, or the
    fallback, and it is never [/Off]. *)
Theorem get_checkbox_on_value_precedence (f : field) :
  (∀ pre k post,
     normal_keys f = pre ++ k :: post →
     Forall (λ x, x = PdfName_Off) pre → k ≠ PdfName_Off →
     get_checkbox_on_value f = k) ∧
  (Forall (λ x, x = PdfName_Off) (normal_keys f) →
   ∀ before kid after pre k post,
     Kids f = before ++ kid :: after →
     Forall (λ c, Forall (λ x, x = PdfName_Off) (normal_keys c)) before →
     normal_keys kid = pre ++ k :: post →
     Forall (λ x, x = PdfName_Off) pre → k ≠ PdfName_Off →
     get_checkbox_on_value f = k) ∧
  (Forall (λ x, x = PdfName_Off) (normal_keys f) →
   Forall (λ c, Forall (λ x, x = PdfName_Off) (normal_keys c)) (Kids f) →
   get_checkbox_on_value f = PdfName_Yes) ∧
  (get_checkbox_on_value f ∈ normal_keys f ∨
   (∃ kid, kid ∈ Kids f ∧ get_checkbox_on_value f ∈ normal_keys kid) ∨
   get_checkbox_on_value f = PdfName_Yes) ∧
  get_checkbox_on_value f ≠ PdfName_Off.
Proof.
  unfold get_checkbox_on_value. split; [|split; [|split; [|split]]].
  - intros pre k post Heq Hpre Hk.
    assert (first_on_key (normal_keys f) = Some k) as ->; [|done].
    apply first_on_key_Some. by exists pre, post.
  - intros Hown before kid after pre k post Heq Hbefore Hkid Hpre Hk.
    apply first_on_key_None in Hown. rewrite Hown.
    assert (first_on_key_of_kids (Kids f) = Some k) as ->; [|done].
    apply first_on_key_of_kids_Some. exists before, kid, after.
    split; [done|]. split; [done|]. apply first_on_key_Some. by exists pre, post.
  - intros Hown Hkids.
    apply first_on_key_None in Hown. apply first_on_key_of_kids_None in Hkids.
    by rewrite Hown, Hkids.
  - destruct (first_on_key (normal_keys f)) as [k|] eqn:Hown.
    { left. by apply first_on_key_elem. }
    destruct (first_on_key_of_kids (Kids f)) as [k|] eqn:Hkids; [|by right; right].
    right; left.
    apply first_on_key_of_kids_Some in Hkids
      as (before & kid & after & Heq & _ & Hk).
    exists kid. split; [|by apply first_on_key_elem].
    rewrite Heq. apply elem_of_app. right. by left.
  - destruct (first_on_key (normal_keys f)) as [k|] eqn:Hown.
    { by eapply first_on_key_not_Off. }
    destruct (first_on_key_of_kids (Kids f)) as [k|] eqn:Hkids; [|done].
    apply first_on_key_of_kids_Some in Hkids as (_ & kid & _ & _ & _ & Hk).
    by eapply first_on_key_not_Off.
Qed.

(** ** The field catalog *)

Lemma merge_fields_snoc fields e :
  merge_fields (fields ++ [e]) = merge_step (merge_fields fields) e.
Proof. unfold merge_fields. by rewrite fold_left_app. Qed.

Lemma first_seen_elem names x : x ∈ first_seen names ↔ x ∈ names.
Proof.
  induction names as [|a names IH]; simpl; [done|].
  rewrite !elem_of_cons, list_elem_of_filter, IH.
  destruct (decide (x = a)); naive_solver.
Qed.

Lemma first_seen_snoc names x :
  first_seen (names ++ [x]) =
  if decide (x ∈ names) then first_seen names else first_seen names ++ [x].
Proof.
  induction names as [|a names IH].
  - cbn [app first_seen]. by rewrite decide_False by apply not_elem_of_nil.
  - cbn [app first_seen]. rewrite IH.
    destruct (decide (x ∈ names)) as [Hin|Hin].
    + by rewrite decide_True by (by right).
    + rewrite filter_app. destruct (decide (x = a)) as [->|Hne].
      * rewrite decide_True by (by left).
        rewrite filter_cons_False by (by intros ?).
        by rewrite filter_nil, app_nil_r.
      * rewrite decide_False by (rewrite elem_of_cons; tauto).
        by rewrite filter_cons_True by done.
Qed.

Lemma first_seen_NoDup names : NoDup (first_seen names).
Proof.
  induction names as [|a names IH]; simpl; [constructor|].
  constructor.
  - rewrite list_elem_of_filter. naive_solver.
  - by apply NoDup_filter.
Qed.

(** What the merging loop has established after any prefix. *)
Lemma merge_fields_inv (fields : list (string * ftype)) :
  (∀ nm, (merge_fields fields).1 !! nm = Some checkbox_or_radio ↔
         (nm, checkbox_or_radio) ∈ fields) ∧
  (∀ nm, (merge_fields fields).1 !! nm = None ↔ nm ∉ fields.*1) ∧
  (merge_fields fields).2 = first_seen fields.*1.
Proof.
  induction fields as [|[nm tp] fields (IH1 & IH2 & IH3)] using rev_ind.
  { split; [|split]; [| |done]; intros nm; cbn; rewrite lookup_empty.
    - split; [done|]. by intros ?%elem_of_nil.
    - split; [|done]. intros _. apply not_elem_of_nil. }
  rewrite merge_fields_snoc.
  destruct (merge_fields fields) as [merged order] eqn:Hm. simpl in *.
  assert ((fields ++ [(nm, tp)]).*1 = fields.*1 ++ [nm]) as ->
    by (by rewrite fmap_app).
  rewrite first_seen_snoc. unfold merge_step.
  destruct (merged !! nm) as [old|] eqn:Hold.
  - assert (Hin : nm ∈ fields.*1).
    { destruct (decide (nm ∈ fields.*1)) as [?|Hn]; [done|].
      apply IH2 in Hn. congruence. }
    rewrite decide_True by done.
    destruct (bool_decide (old ≠ checkbox_or_radio) &&
              bool_decide (tp = checkbox_or_radio)) eqn:Hup; simpl.
    + apply andb_true_iff in Hup as [_ Htp%bool_decide_eq_true]. subst tp.
      split; [|split]; [| |done]; intros x.
      * rewrite lookup_insert, elem_of_app, list_elem_of_singleton.
        case_decide; subst; [naive_solver|]. rewrite IH1. naive_solver.
      * rewrite lookup_insert, elem_of_app, list_elem_of_singleton.
        case_decide; subst; [naive_solver|]. rewrite IH2. naive_solver.
    + split; [|split]; [| |done]; intros x.
      * rewrite elem_of_app, list_elem_of_singleton, IH1.
        split; [naive_solver|]. intros [?|[= -> <-]]; [done|].
        apply andb_false_iff in Hup as [Hup|Hup];
          apply bool_decide_eq_false in Hup; [|done].
        apply dec_stable in Hup. apply IH1. congruence.
      * rewrite elem_of_app, list_elem_of_singleton, IH2.
        split; [|naive_solver]. by intros Hx [? | ->].
  - assert (Hin : nm ∉ fields.*1) by by apply IH2.
    rewrite decide_False by done. simpl.
    split; [|split]; [| |by rewrite IH3]; intros x.
    + rewrite lookup_insert, elem_of_app, list_elem_of_singleton.
      case_decide; subst.
      * split; [naive_solver|]. intros [Hx|[= ->]]; [|done].
        exfalso. apply Hin. apply list_elem_of_fmap. by exists (x, checkbox_or_radio).
      * rewrite IH1. naive_solver.
    + rewrite lookup_insert, elem_of_app, list_elem_of_singleton.
      case_decide; subst; [naive_solver|]. rewrite IH2. naive_solver.
Qed.

Lemma merge_fields_text fields nm :
  (merge_fields fields).1 !! nm = Some text ↔
  nm ∈ fields.*1 ∧ (nm, checkbox_or_radio) ∉ fields.
Proof.
  destruct (merge_fields_inv fields) as (H1 & H2 & _).
  specialize (H1 nm). specialize (H2 nm).
  destruct ((merge_fields fields).1 !! nm) as [[]|] eqn:Hl.
  - split; [|done]. intros _. split.
    + destruct (decide (nm ∈ fields.*1)) as [?|Hn]; [done|].
      apply H2 in Hn. congruence.
    + intros Hc. apply H1 in Hc. congruence.
  - split; [done|]. intros [_ Hc]. exfalso. apply Hc. by apply H1.
  - split; [done|]. intros [Hin _]. exfalso. revert Hin. by apply H2.
Qed.

Lemma harvest_button template nm :
  (nm, checkbox_or_radio) ∈ harvest template ↔ has_button_node template nm.
Proof.
  assert (Hentry : ∀ f, field_entry f = Some (nm, checkbox_or_radio) ↔
            clean_field_name (T f) = Some nm ∧ FT f = Some PdfName_Btn).
  { intros f. unfold field_entry.
    destruct (clean_field_name (T f)) as [n|]; [|naive_solver].
    case_bool_decide; naive_solver. }
  unfold harvest, has_button_node. rewrite elem_of_app, !list_elem_of_omap.
  split.
  - intros [H|(a & Ha & He)].
    + destruct (AcroForm template) as [acro|]; [|by apply elem_of_nil in H].
      apply list_elem_of_omap in H as (f & Hf & He). apply Hentry in He.
      left. exists acro, f. naive_solver.
    + right. destruct (annot_dict template a) as [g|] eqn:Hg; [|done].
      exists a, g. simpl in He. unfold widget_entry in He.
      case_bool_decide; [|done]. apply Hentry in He. naive_solver.
  - intros [(acro & f & -> & Hf & Hn & Hb)|(a & g & Ha & Hg & Hs & Hn & Hb)].
    + left. apply list_elem_of_omap. exists f. split; [done|]. by apply Hentry.
    + right. exists a. split; [done|]. rewrite Hg. simpl. unfold widget_entry.
      rewrite bool_decide_eq_true_2 by done. by apply Hentry.
Qed.

(** C3: for every sequence of harvested (name, type) occurrences, the
    merged catalog has [checkbox_or_radio] for a name exactly when some
    occurrence of the name is a button, and [text] exactly when the name
    occurs and none of its occurrences is a button; so any reordering of
    the occurrences gives the same catalog, a button occurrence arriving
    after a [text] entry upgrades it and a text occurrence arriving after
    a [checkbox_or_radio] entry leaves it; the name list has each name
    once, at the place of its first occurrence; and for a template whose
    extraction succeeds the catalog has [checkbox_or_radio] for a name
    exactly when a node of the form tree or a page's widget annotation
    with that name is a button. *)
Theorem merge_button_dominates (fields : list (string * ftype)) :
  (∀ nm, (merge_fields fields).1 !! nm = Some checkbox_or_radio ↔
         (nm, checkbox_or_radio) ∈ fields) ∧
  (∀ nm, (merge_fields fields).1 !! nm = Some text ↔
         nm ∈ fields.*1 ∧ (nm, checkbox_or_radio) ∉ fields) ∧
  (∀ fields', fields' ≡ₚ fields →
              (merge_fields fields').1 = (merge_fields fields).1) ∧
  (∀ nm, (merge_fields fields).1 !! nm = Some text →
         (merge_fields (fields ++ [(nm, checkbox_or_radio)])).1 !! nm
         = Some checkbox_or_radio) ∧
  (∀ nm, (merge_fields fields).1 !! nm = Some checkbox_or_radio →
         (merge_fields (fields ++ [(nm, text)])).1 !! nm
         = Some checkbox_or_radio) ∧
  (merge_fields fields).2 = first_seen fields.*1 ∧
  (∀ template order merged,
     fields = harvest template →
     extract_pdf_fields_all template = Ok (order, merged) →
     order = first_seen fields.*1 ∧
     ∀ nm, merged !! nm = Some checkbox_or_radio ↔ has_button_node template nm).
Proof.
  destruct (merge_fields_inv fields) as (H1 & H2 & H3).
  split; [done|]. split; [apply merge_fields_text|].
  split; [|split; [|split; [|split; [done|]]]].
  - intros fields' Hp. apply map_eq. intros nm.
    destruct (merge_fields_inv fields') as (H1' & H2' & _).
    pose proof (merge_fields_text fields nm) as Ht.
    pose proof (merge_fields_text fields' nm) as Ht'.
    specialize (H1 nm). specialize (H1' nm).
    assert (Hmem : ∀ e, e ∈ fields' ↔ e ∈ fields) by (intros e; by rewrite Hp).
    assert (Hnames : nm ∈ fields'.*1 ↔ nm ∈ fields.*1) by (by rewrite Hp).
    rewrite Hmem in H1', Ht'. rewrite Hnames in Ht'.
    destruct ((merge_fields fields).1 !! nm) as [[]|] eqn:Hl.
    + by apply Ht', Ht.
    + by apply H1', H1.
    + apply H2'. rewrite Hnames. by apply H2.
  - intros nm _. apply merge_fields_inv. apply elem_of_app. right. by left.
  - intros nm Hc. apply merge_fields_inv. apply elem_of_app. left. by apply H1.
  - intros template order merged -> Hex. unfold extract_pdf_fields_all in Hex.
    destruct (AcroForm template); [|done].
    destruct (is_xfa_pdf template); [done|].
    destruct (merge_fields (harvest template)) as [m o] eqn:Hm.
    injection Hex as <- <-. simpl in *. split; [done|].
    intros nm. rewrite H1. apply harvest_button.
Qed.

(** ** The fill engine, one node at a time *)

Section FillField.

Variable encodable : string → bool.
Variables (data_row mapping : gmap string string).
Variable rules : gmap string rule.
Variable force_autosize_text : bool.

(** A node whose name is mapped to a column the row has gets the body
    of the loop with that cell's value. *)
Lemma fill_field_resolved f nm col value :
  clean_field_name (T f) = Some nm → mapping !! nm = Some col →
  col ≠ "" → data_row !! col = Some value →
  fill_field encodable data_row mapping rules force_autosize_text f
  = write_field encodable rules force_autosize_text nm value f.
Proof.
  intros Hnm Hmap Hcol Hrow. unfold fill_field.
  rewrite Hnm, Hmap, Hrow. by destruct col.
Qed.

Lemma write_field_button f nm value :
  FT f = Some PdfName_Btn →
  write_field encodable rules force_autosize_text nm value f
  = let st := button_state f value (default DEFAULT_RULE (rules !! nm)) in
    Ok (match Kids f with
        | [] => set_AS (Some st) (set_V (Some (PName st)) f)
        | kids => set_Kids (set_AS (Some st) <$> kids)
                    (set_V (Some (PName st)) f)
        end, 1).
Proof.
  intros Hft. unfold write_field. rewrite bool_decide_eq_true_2 by done.
  by destruct f as [? ? ? ? ? ? ? ? []].
Qed.

End FillField.

(** ** The auto-size rewrite of [/DA] *)

Lemma drop_while_split p s :
  ∃ l, s = l ++ Re.drop_while p s ∧ Forall (λ c, p c = true) l.
Proof.
  induction s as [|c s (l & Hl & HF)]; simpl.
  - by exists [].
  - destruct (p c) eqn:Hc.
    + exists (c :: l). split; [by rewrite Hl at 1|]. by constructor.
    + by exists [].
Qed.

Lemma drop_while_app p l r :
  Forall (λ c, p c = true) l →
  match r with [] => True | c :: _ => p c = false end →
  Re.drop_while p (l ++ r) = r.
Proof.
  intros HF Hr. induction HF as [|c l Hc _ IH]; simpl.
  - destruct r as [|c r]; simpl; [done|]. by rewrite Hr.
  - by rewrite Hc.
Qed.

Lemma number_sound s r :
  Re.number s = Some r → ∃ num, s = num ++ r ∧ Pattern.number num.
Proof.
  unfold Re.number.
  set (s1 := match s with "-"%char :: r' => r' | _ => s end).
  assert (Hsign : ∃ sign, s = sign ++ s1 ∧ (sign = [] ∨ sign = ["-"%char])).
  { destruct s as [|c s']; [exists []; split; [done | by left]|].
    destruct (decide (c = "-"%char)) as [->|Hc].
    - exists ["-"%char]. split; [done | by right].
    - exists []. split; [|by left]. subst s1.
      by destruct c as [[] [] [] [] [] [] [] []]. }
  destruct Hsign as (sign & Hs & Hsign). clearbody s1.
  destruct s1 as [|d s1']; [done|].
  destruct (Re.isdigit d) eqn:Hd; [|done].
  destruct (drop_while_split Re.isdigit (d :: s1')) as (int & Hint & HF).
  assert (Hne : int ≠ []).
  { intros ->. simpl in Hint. rewrite Hd in Hint.
    apply (f_equal length) in Hint. simpl in Hint.
    destruct (drop_while_split Re.isdigit s1') as (l & Hl & _).
    apply (f_equal length) in Hl. rewrite length_app in Hl. lia. }
  set (s2 := Re.drop_while Re.isdigit (d :: s1')) in *. clearbody s2.
  intros [= <-].
  assert (Hplain : ∃ num, s = num ++ s2 ∧ Pattern.number num).
  { exists (sign ++ int). split; [by rewrite Hs, Hint, app_assoc|].
    exists sign, int, []. rewrite app_nil_r. repeat split; try done. by left. }
  destruct s2 as [|c s2']; [done|].
  destruct (decide (c = "."%char)) as [->|Hc];
    [|by destruct c as [[] [] [] [] [] [] [] []]].
  destruct s2' as [|d' r']; [done|].
  destruct (Re.isdigit d') eqn:Hd'; [|done].
  destruct (drop_while_split Re.isdigit r') as (l & Hl & HFl).
  exists (sign ++ int ++ "."%char :: d' :: l). split.
  - rewrite Hs, Hint. rewrite Hl at 1. by rewrite <- !app_assoc.
  - exists sign, int, ("."%char :: d' :: l). repeat split; try done.
    right. exists (d' :: l). repeat split; [done|]. by constructor.
Qed.

Lemma isdigit_not_space c : Py.isspace c = true → Re.isdigit c = false.
Proof. by destruct c as [[] [] [] [] [] [] [] []]. Qed.

Lemma number_complete num w rest :
  Pattern.number num → Py.isspace w = true →
  Re.number (num ++ w :: rest) = Some (w :: rest).
Proof.
  intros (sign & int & frac & -> & Hsign & [Hint HFint] & Hfrac) Hw.
  assert (Hwd : Re.isdigit w = false) by by apply isdigit_not_space.
  assert (Hwdot : w ≠ "."%char) by (by intros ->).
  destruct int as [|d int]; [done|].
  inversion HFint as [|?? Hd HFint']; subst.
  assert (Hs1 : match (sign ++ (d :: int) ++ frac) ++ w :: rest with
                | "-"%char :: r' => r'
                | _ => (sign ++ (d :: int) ++ frac) ++ w :: rest
                end = d :: int ++ frac ++ w :: rest).
  { destruct Hsign as [-> | ->]; simpl; rewrite <- ?app_assoc; [|done].
    by destruct d as [[] [] [] [] [] [] [] []]. }
  unfold Re.number. rewrite Hs1, Hd. f_equal.
  destruct Hfrac as [-> | (ds & -> & [Hds HFds])].
  - simpl. rewrite Hd. rewrite (drop_while_app _ int (w :: rest)) by done.
    by destruct w as [[] [] [] [] [] [] [] []].
  - destruct ds as [|d' ds]; [done|].
    inversion HFds as [|?? Hd' HFds']; subst.
    simpl. rewrite Hd.
    rewrite (drop_while_app _ int ("."%char :: d' :: ds ++ w :: rest)) by done.
    rewrite Hd'. by apply drop_while_app.
Qed.

Lemma spaces_Tf_sound s rest :
  Re.spaces_Tf s = Some rest →
  ∃ sep, s = sep ++ ["T"; "f"]%char ++ rest ∧ Pattern.spaces sep ∧
         Re.at_word_end rest = true.
Proof.
  unfold Re.spaces_Tf. destruct s as [|w r]; [done|].
  destruct (Py.isspace w) eqn:Hw; [|done].
  destruct (drop_while_split Py.isspace r) as (l & Hl & HF).
  destruct (Re.drop_while Py.isspace r) as [|c1 [|c2 rest']]; [done| |].
  { by destruct c1 as [[] [] [] [] [] [] [] []]. }
  destruct (decide (c1 = "T"%char)) as [->|Hc1];
    [|by destruct c1 as [[] [] [] [] [] [] [] []]].
  destruct (decide (c2 = "f"%char)) as [->|Hc2];
    [|by destruct c2 as [[] [] [] [] [] [] [] []]].
  destruct (Re.at_word_end rest') eqn:Hend; [|done].
  intros [= <-]. exists (w :: l). split; [by rewrite Hl at 1|].
  split; [|done]. split; [done | by constructor].
Qed.

Lemma spaces_Tf_complete sep post :
  Pattern.spaces sep → Re.at_word_end post = true →
  Re.spaces_Tf (sep ++ ["T"; "f"]%char ++ post) = Some post.
Proof.
  intros [Hne HF] Hend. destruct sep as [|w sep]; [done|].
  inversion HF as [|?? Hw HF']; subst. simpl. rewrite Hw.
  rewrite (drop_while_app _ sep ("T"%char :: "f"%char :: post)) by done.
  by rewrite Hend.
Qed.

Lemma size_Tf_sound s rest :
  Re.size_Tf s = Some rest →
  ∃ num sep, s = num ++ sep ++ ["T"; "f"]%char ++ rest ∧
             Pattern.number num ∧ Pattern.spaces sep ∧
             Re.at_word_end rest = true.
Proof.
  unfold Re.size_Tf. destruct (Re.number s) as [s'|] eqn:Hn; [|done].
  intros (sep & -> & Hsep & Hend)%spaces_Tf_sound.
  apply number_sound in Hn as (num & -> & Hnum). by exists num, sep.
Qed.

Lemma size_Tf_complete num sep post :
  Pattern.number num → Pattern.spaces sep → Re.at_word_end post = true →
  Re.size_Tf (num ++ sep ++ ["T"; "f"]%char ++ post) = Some post.
Proof.
  intros Hnum Hsep Hend. unfold Re.size_Tf.
  pose proof Hsep as [Hne HF]. destruct sep as [|w sep']; [done|].
  inversion HF as [|?? Hw _]; subst. simpl.
  rewrite (number_complete num w) by done.
  by apply (spaces_Tf_complete (w :: sep')).
Qed.

Lemma occurs_at_cons_S c r n :
  Pattern.occurs_at r n → Pattern.occurs_at (c :: r) (S n).
Proof.
  intros (pre & w & num & sep & post & (-> & H) & <-).
  exists (c :: pre), w, num, sep, post. split; [|done]. by split.
Qed.

Lemma occurs_at_S_inv c r n :
  Pattern.occurs_at (c :: r) (S n) → Pattern.occurs_at r n.
Proof.
  intros (pre & w & num & sep & post & (Heq & H) & Hlen).
  destruct pre as [|c' pre]; [done|]. simplify_eq/=.
  exists pre, w, num, sep, post. split; [|done]. by split.
Qed.

Lemma occurs_at_0_inv c r :
  Pattern.occurs_at (c :: r) 0 →
  Py.isspace c = true ∧ ∃ rest, Re.size_Tf r = Some rest.
Proof.
  intros (pre & w & num & sep & post & (Heq & Hw & Hnum & Hsep & Hend) & Hlen).
  destruct pre; [|done]. simplify_eq/=. split; [done|].
  exists post. by apply size_Tf_complete.
Qed.

Lemma sub_first_None s :
  Re.sub_first s = None ↔ ∀ n, ¬ Pattern.occurs_at s n.
Proof.
  induction s as [|c r IH]; simpl.
  - split; [|done]. intros _ n (pre & ? & ? & ? & ? & (Heq & _) & _).
    by destruct pre.
  - split.
    + intros Hnone [|n] Hocc.
      * apply occurs_at_0_inv in Hocc as (Hc & rest & Hrest).
        by rewrite Hc, Hrest in Hnone.
      * apply occurs_at_S_inv in Hocc.
        destruct (if Py.isspace c then Re.size_Tf r else None); [done|].
        destruct (Re.sub_first r) eqn:Hr; [done|]. by apply IH in Hocc.
    + intros Hno.
      destruct (if Py.isspace c then Re.size_Tf r else None) as [rest|] eqn:Hm.
      * exfalso. apply (Hno 0). destruct (Py.isspace c) eqn:Hc; [|done].
        apply size_Tf_sound in Hm as (num & sep & -> & Hnum & Hsep & Hend).
        exists [], c, num, sep, rest. split; [|done]. by split.
      * assert (Re.sub_first r = None) as ->; [|done].
        apply IH. intros n Hocc. by apply (Hno (S n)), occurs_at_cons_S.
Qed.

Lemma sub_first_cons c r :
  Re.sub_first (c :: r) =
  match (if Py.isspace c then Re.size_Tf r else None) with
  | Some rest => Some (c :: Re.zero_Tf ++ rest)
  | None => cons c <$> Re.sub_first r
  end.
Proof. done. Qed.

Lemma sub_first_first s pre w num sep post :
  Pattern.occurrence s pre w num sep post →
  (∀ n, n < length pre → ¬ Pattern.occurs_at s n) →
  Re.sub_first s = Some (pre ++ w :: Re.zero_Tf ++ post).
Proof.
  revert s. induction pre as [|c pre IH];
    intros s (-> & Hw & Hnum & Hsep & Hend) Hfirst.
  - rewrite app_nil_l, sub_first_cons, Hw. by rewrite size_Tf_complete.
  - rewrite <- app_comm_cons, sub_first_cons.
    destruct (if Py.isspace c then Re.size_Tf _ else None) as [rest|] eqn:Hm.
    + exfalso. apply (Hfirst 0); [simpl; lia|].
      destruct (Py.isspace c) eqn:Hc; [|done].
      apply size_Tf_sound in Hm as (num' & sep' & Heq & Hnum' & Hsep' & Hend').
      exists [], c, num', sep', rest. split; [|done].
      split; [|done]. rewrite app_nil_l, <- app_comm_cons. by f_equal.
    + rewrite (IH (pre ++ w :: num ++ sep ++ ["T"; "f"]%char ++ post)); [done| |].
      * by split.
      * intros n Hn Hocc. apply (Hfirst (S n)); [simpl; lia|].
        by apply occurs_at_cons_S.
Qed.

Lemma sub_first_Some s s' :
  Re.sub_first s = Some s' →
  ∃ pre w num sep post,
    Pattern.occurrence s pre w num sep post ∧
    (∀ n, n < length pre → ¬ Pattern.occurs_at s n) ∧
    s' = pre ++ w :: Re.zero_Tf ++ post.
Proof.
  revert s'. induction s as [|c r IH]; intros s'; simpl; [done|].
  destruct (if Py.isspace c then Re.size_Tf r else None) as [rest|] eqn:Hm.
  - intros [= <-]. destruct (Py.isspace c) eqn:Hc; [|done].
    apply size_Tf_sound in Hm as (num & sep & -> & Hnum & Hsep & Hend).
    exists [], c, num, sep, rest. split; [by split|]. split; [|done].
    intros n Hn. simpl in Hn. lia.
  - destruct (Re.sub_first r) as [r'|] eqn:Hr; [|done]. intros [= <-].
    destruct (IH r' eq_refl)
      as (pre & w & num & sep & post & (-> & Hocc) & Hfirst & ->).
    exists (c :: pre), w, num, sep, post. split; [by split|]. split; [|done].
    intros [|n] Hn Hat.
    + apply occurs_at_0_inv in Hat as (Hc & rest & Hrest).
      by rewrite Hc, Hrest in Hm.
    + apply occurs_at_S_inv in Hat. apply (Hfirst n); [simpl in Hn; lia | done].
Qed.

Section DaAutosize.

Variable encodable : string → bool.
Variable rules : gmap string rule.

(** [_set_da_autosize] reads and writes [DA] alone. *)
Lemma _set_da_autosize_cases f :
  _set_da_autosize encodable f = f ∨
  ∃ da, DA f = Some da ∧ encodable (Re.sub da) = true ∧
        _set_da_autosize encodable f = set_DA (Some (Re.sub da)) f.
Proof.
  unfold _set_da_autosize, PdfString_encode.
  destruct (DA f) as [da|] eqn:Hda; [|by left].
  case_bool_decide; [|by left].
  destruct (encodable (Re.sub da)) eqn:He; [|by left].
  right. by exists da.
Qed.

Lemma set_DA_same f : set_DA (DA f) f = f.
Proof. by destruct f. Qed.

(** What [_set_da_autosize] makes of a node, in full. *)
Lemma _set_da_autosize_exact f da :
  DA f = Some da →
  _set_da_autosize encodable f
  = if encodable (Re.sub da) then set_DA (Some (Re.sub da)) f else f.
Proof.
  intros Hda. unfold _set_da_autosize, PdfString_encode. rewrite Hda.
  case_bool_decide as Hnew; [by destruct (encodable _)|].
  rewrite Hnew.
  destruct (encodable da); [|done]. by rewrite <- Hda, set_DA_same.
Qed.

(** C9: the rewrite replaces the first match of the pattern, that is a
    whitespace character, a number, whitespace and [Tf] at a word
    boundary, by the same whitespace character followed by [0 Tf], and
    copies what is before and after it, later matches included; a text
    without a match is returned as it is; a text has either a first
    match or none.  [_set_da_autosize] leaves a node without [DA] as it
    is, and otherwise stores the rewritten text as the node's [DA] and
    changes nothing else, unless the rewritten text cannot be encoded,
    in which case the node stays as it is.  The loop body on a text
    field whose value encodes returns the node with the auto-sized [DA],
    the value as [V] and no [AP] and [Ff], and counts it: so its [DA]
    has the first match replaced when there is one and the new text
    encodes, is the old text when there is no match, and is the old text
    with the value still set when the new text cannot be encoded. *)
Theorem da_autosize_first_match_only (f : field) (nm value : string) :
  (∀ da pre w num sep post,
     Pattern.occurrence (list_ascii_of_string da) pre w num sep post →
     (∀ n, n < length pre →
           ¬ Pattern.occurs_at (list_ascii_of_string da) n) →
     Re.sub da = string_of_list_ascii (pre ++ w :: Re.zero_Tf ++ post)) ∧
  (∀ da, (∀ n, ¬ Pattern.occurs_at (list_ascii_of_string da) n) →
         Re.sub da = da) ∧
  (∀ da,
     (∀ n, ¬ Pattern.occurs_at (list_ascii_of_string da) n) ∨
     ∃ pre w num sep post,
       Pattern.occurrence (list_ascii_of_string da) pre w num sep post ∧
       ∀ n, n < length pre →
            ¬ Pattern.occurs_at (list_ascii_of_string da) n) ∧
  (DA f = None → _set_da_autosize encodable f = f) ∧
  (∀ da, DA f = Some da →
         _set_da_autosize encodable f
         = if encodable (Re.sub da) then set_DA (Some (Re.sub da)) f else f) ∧
  (∀ force_autosize_text,
     FT f ≠ Some PdfName_Btn → encodable value = true →
     write_field encodable rules force_autosize_text nm value f
     = Ok (set_Ff None
             (set_AP None
                (set_V (Some (PString value))
                   (if force_autosize_text
                    then _set_da_autosize encodable f else f))), 1)) ∧
  (∀ da, DA f = Some da →
     FT f ≠ Some PdfName_Btn → encodable value = true →
     ∃ f', write_field encodable rules true nm value f = Ok (f', 1) ∧
           V f' = Some (PString value) ∧
           (∀ pre w num sep post,
              Pattern.occurrence (list_ascii_of_string da) pre w num sep post →
              (∀ n, n < length pre →
                    ¬ Pattern.occurs_at (list_ascii_of_string da) n) →
              encodable (Re.sub da) = true →
              DA f' = Some (string_of_list_ascii
                              (pre ++ w :: Re.zero_Tf ++ post))) ∧
           ((∀ n, ¬ Pattern.occurs_at (list_ascii_of_string da) n) →
            DA f' = Some da) ∧
           (encodable (Re.sub da) = false → DA f' = Some da)).
Proof.
  assert (Hfirst : ∀ da pre w num sep post,
     Pattern.occurrence (list_ascii_of_string da) pre w num sep post →
     (∀ n, n < length pre →
           ¬ Pattern.occurs_at (list_ascii_of_string da) n) →
     Re.sub da = string_of_list_ascii (pre ++ w :: Re.zero_Tf ++ post)).
  { intros da pre w num sep post Hocc Hfirst. unfold Re.sub.
    by rewrite (sub_first_first _ pre w num sep post). }
  assert (Hnone : ∀ da,
     (∀ n, ¬ Pattern.occurs_at (list_ascii_of_string da) n) →
     Re.sub da = da).
  { intros da Hno. unfold Re.sub.
    apply sub_first_None in Hno. rewrite Hno. simpl.
    apply string_of_list_ascii_of_string. }
  assert (Hwrite : ∀ force_autosize_text,
     FT f ≠ Some PdfName_Btn → encodable value = true →
     write_field encodable rules force_autosize_text nm value f
     = Ok (set_Ff None
             (set_AP None
                (set_V (Some (PString value))
                   (if force_autosize_text
                    then _set_da_autosize encodable f else f))), 1)).
  { intros force Hft Hval. unfold write_field.
    rewrite bool_decide_eq_false_2 by done.
    unfold PdfString_encode at 1. by rewrite Hval. }
  split; [done|]. split; [done|]. split; [|split; [|split; [|split; [done|]]]].
  - intros da.
    destruct (Re.sub_first (list_ascii_of_string da)) as [s'|] eqn:Hs.
    + right. apply sub_first_Some in Hs
        as (pre & w & num & sep & post & Hocc & Hfst & _).
      by exists pre, w, num, sep, post.
    + left. by apply sub_first_None.
  - intros Hda. unfold _set_da_autosize. by rewrite Hda.
  - apply _set_da_autosize_exact.
  - intros da Hda Hft Hval. rewrite (Hwrite true Hft Hval).
    eexists. split; [done|]. split; [done|].
    rewrite (_set_da_autosize_exact f da Hda).
    split; [|split].
    + intros pre w num sep post Hocc Hfst Henc. rewrite Henc.
      by rewrite (Hfirst da pre w num sep post Hocc Hfst).
    + intros Hno. rewrite (Hnone da Hno).
      destruct (encodable da); [done | by rewrite <- Hda].
    + intros Henc. rewrite Henc. by rewrite <- Hda.
Qed.

End DaAutosize.

(** ** The walk over the form tree *)

Section Walk.

Variable encodable : string → bool.
Variables (data_row mapping : gmap string string).
Variable rules : gmap string rule.
Variable force_autosize_text : bool.

Local Abbreviation body := (fill_field encodable data_row mapping rules force_autosize_text).
Local Abbreviation node := (fill_node encodable data_row mapping rules force_autosize_text).
Local Abbreviation nodes := (fill_fields encodable data_row mapping rules force_autosize_text).

(** The body writes nothing of a kid but its [AS], and writes no kid
    that is not there. *)
Lemma fill_field_kids f f1 c :
  body f = Ok (f1, c) →
  Forall2 (λ k k1, k1 = set_AS (AS k1) k) (Kids f) (Kids f1).
Proof.
  assert (Hsame : ∀ l : list field, Forall2 (λ k k1, k1 = set_AS (AS k1) k) l l).
  { intros l. apply Forall2_same_length_lookup_2; [done|].
    intros i k k1 H1 H2. simplify_eq. by destruct k. }
  unfold fill_field.
  destruct (clean_field_name (T f)) as [nm|]; [|intros [= <- _]; apply Hsame].
  destruct (mapping !! nm) as [col|]; [|intros [= <- _]; apply Hsame].
  destruct (_ || _); [intros [= <- _]; apply Hsame|].
  assert (Hset : ∀ st (l : list field),
            Forall2 (λ k k1, k1 = set_AS (AS k1) k) l (set_AS st <$> l)).
  { intros st l. induction l as [|k l IH]; [constructor|].
    rewrite fmap_cons. constructor; [by destruct k | done]. }
  destruct (decide (FT f = Some PdfName_Btn)) as [Hft|Hft].
  - rewrite write_field_button by done. cbv zeta. intros [= <- _].
    destruct f as [? ? ? ? ? ? ? ? [|k kids]];
      cbn [Kids set_Kids set_V set_AS]; [apply (Hsame []) | exact (Hset _ (k :: kids))].
  - unfold write_field. rewrite bool_decide_eq_false_2 by done.
    unfold PdfString_encode. destruct (encodable _); [|done].
    intros [= <- _]. simpl.
    destruct force_autosize_text; [|apply Hsame].
    destruct (_set_da_autosize_cases encodable f) as [->|(da & _ & _ & ->)];
      apply Hsame.
Qed.

Lemma fill_node_set_AS a k : node a (set_AS a k) = node a k.
Proof. by destruct k. Qed.

(** The loop as the source has it: the body runs on the node as the
    walk finds it, then the walk goes through the kids the body left. *)
Lemma fill_node_unfold cur_AS f :
  node cur_AS f =
  '(f1, c) ← body (set_AS cur_AS f);
  '(kids', n) ← nodes (Kids f1);
  Ok (set_Kids kids' f1, c + n).
Proof.
  destruct f as [t ft v a ap da ff sub kids]. cbn [fill_node].
  change (set_AS cur_AS (Field t ft v a ap da ff sub kids))
    with (Field t ft v cur_AS ap da ff sub kids).
  destruct (body (Field t ft v cur_AS ap da ff sub kids))
    as [[f1 c]|e] eqn:Hbody; [|done].
  apply fill_field_kids in Hbody. cbn [Kids] in Hbody.
  cbn [mbind except_bind].
  match goal with
  | |- ?w kids (Kids f1) ≫= _ = _ =>
      assert (Hwalk : ∀ orig now,
                Forall2 (λ k k1, k1 = set_AS (AS k1) k) orig now →
                w orig now = nodes now)
  end.
  { intros orig now HF. induction HF as [|k k1 ks ks1 Hk _ IH]; [done|].
    cbn [fill_fields]. rewrite <- IH.
    rewrite <- (fill_node_set_AS (AS k1) k), <- Hk. done. }
  by rewrite Hwalk.
Qed.

End Walk.

(** ** What the fill loop does to a node *)

Section FillNode.

Variable encodable : string → bool.
Variables (data_row mapping : gmap string string).
Variable rules : gmap string rule.
Variable force_autosize_text : bool.

(** C4: a node that is a button, whose name is mapped to a column of
    the row, is written by the body of the fill loop: its [V] becomes
    the discovered on-token when the cell classifies as checked and
    [/Off] otherwise; when it has kids every kid gets that same token
    as [AS] and nothing else of a kid or of the node changes; when it
    has none the node's own [AS] gets the token; the node counts as one
    filled field; and in what the walk returns for the node, once its
    kids have been walked too, [V] is still that token. *)
Theorem button_fill_state f nm col value :
  clean_field_name (T f) = Some nm → mapping !! nm = Some col →
  col ≠ "" → data_row !! col = Some value →
  FT f = Some PdfName_Btn →
  ∃ f' st,
    fill_field encodable data_row mapping rules force_autosize_text f
    = Ok (f', 1) ∧
    st = (if should_check value (default DEFAULT_RULE (rules !! nm))
          then get_checkbox_on_value f else PdfName_Off) ∧
    V f' = Some (PName st) ∧
    (Kids f ≠ [] →
     Kids f' = set_AS (Some st) <$> Kids f ∧
     Forall (λ kid, AS kid = Some st) (Kids f') ∧
     f' = set_Kids (Kids f') (set_V (Some (PName st)) f)) ∧
    (Kids f = [] → f' = set_AS (Some st) (set_V (Some (PName st)) f)) ∧
    (∀ f'' n,
       fill_node encodable data_row mapping rules force_autosize_text
         (AS f) f = Ok (f'', n) →
       V f'' = Some (PName st)).
Proof.
  intros Hnm Hmap Hcol Hrow Hft.
  assert (Hwalk : ∀ f1 f'' n,
    fill_field encodable data_row mapping rules force_autosize_text f
    = Ok (f1, 1) →
    fill_node encodable data_row mapping rules force_autosize_text
      (AS f) f = Ok (f'', n) → V f'' = V f1).
  { intros f1 f'' n Hbody. rewrite fill_node_unfold.
    replace (set_AS (AS f) f) with f by (by destruct f).
    rewrite Hbody. cbn [mbind except_bind].
    destruct (fill_fields _ _ _ _ _ (Kids f1)) as [[ks m]|]; [|done].
    intros [= <- _]. by destruct f1. }
  revert Hwalk.
  rewrite (fill_field_resolved _ _ _ _ _ f nm col value) by done.
  rewrite write_field_button by done. cbv zeta.
  set (st := button_state f value _). intros Hwalk.
  eexists _, st. split; [done|]. split; [done|].
  destruct f as [t ft v a ap da ff sub [|k kids]];
    cbn [Kids set_Kids set_V set_AS V T FT AS AP DA Ff Subtype] in *.
  - split; [done|]. split; [done|]. split; [done|].
    intros f'' n Hn. by rewrite (Hwalk _ _ _ eq_refl Hn).
  - split; [done|]. split; [|split; [done|]].
    + intros _. split; [done|]. split; [|done].
      rewrite fmap_cons.
      constructor; [done|]. apply Forall_fmap. by apply Forall_true.
    + intros f'' n Hn. by rewrite (Hwalk _ _ _ eq_refl Hn).
Qed.

(** C5, as amended: a node whose name is mapped to a column that the
    row does not have is skipped by the body of the fill loop, whatever
    its type: the body raises nothing, leaves the node as it is and
    does not count it. *)
Theorem absent_column_skips f nm col :
  clean_field_name (T f) = Some nm → mapping !! nm = Some col →
  data_row !! col = None →
  fill_field encodable data_row mapping rules force_autosize_text f
  = Ok (f, 0).
Proof.
  intros Hnm Hmap Hrow. unfold fill_field. rewrite Hnm, Hmap, Hrow.
  rewrite bool_decide_eq_true_2 by done. by rewrite orb_true_r.
Qed.

Lemma should_check_DEFAULT_RULE value :
  should_check value DEFAULT_RULE
  = bool_decide (norm value ∈
      ["yes"; "true"; "1"; "x"; "on"; "checked"; "male"]).
Proof.
  unfold should_check.
  change (norm <$> default [] (rule_checked_values DEFAULT_RULE))
    with (norm <$> ["yes"; "true"; "1"; "x"; "on"; "checked"; "male"]).
  assert (norm <$> ["yes"; "true"; "1"; "x"; "on"; "checked"; "male"]
          = ["yes"; "true"; "1"; "x"; "on"; "checked"; "male"]) as ->
    by by vm_compute.
  destruct (bool_decide (norm value ∈ _)); [done|].
  by destruct (bool_decide (norm value ∈ _)).
Qed.

(** C6: for a button whose name has no entry in [rules], the body of the
    fill loop classifies the cell with [DEFAULT_RULE], whose checked
    tokens are yes, true, 1, x, on, checked, male, whose unchecked
    tokens are no, false, 0, off, unchecked, the empty string, female,
    and whose default is off: a cell is checked exactly when, trimmed
    and lower-cased, it is one of the checked tokens; the cell ["Y"]
    is in neither list, falls to the default and the node's [V] becomes
    [/Off]. *)
Theorem default_rule_applies f nm col value :
  clean_field_name (T f) = Some nm → mapping !! nm = Some col →
  col ≠ "" → data_row !! col = Some value →
  FT f = Some PdfName_Btn → rules !! nm = None →
  (∃ f',
     fill_field encodable data_row mapping rules force_autosize_text f
     = Ok (f', 1) ∧
     V f' = Some (PName (if should_check value DEFAULT_RULE
                         then get_checkbox_on_value f else PdfName_Off))) ∧
  DEFAULT_RULE
  = Rule (Some ["yes"; "true"; "1"; "x"; "on"; "checked"; "male"])
         (Some ["no"; "false"; "0"; "off"; "unchecked"; ""; "female"])
         (Some "off") ∧
  default_polarity DEFAULT_RULE = false ∧
  (∀ v, should_check v DEFAULT_RULE
        = bool_decide (norm v ∈
            ["yes"; "true"; "1"; "x"; "on"; "checked"; "male"])) ∧
  (value = "Y" →
   in_bucket value DEFAULT_RULE Default ∧
   should_check value DEFAULT_RULE = false ∧
   ∃ f',
     fill_field encodable data_row mapping rules force_autosize_text f
     = Ok (f', 1) ∧
     V f' = Some (PName PdfName_Off)).
Proof.
  intros Hnm Hmap Hcol Hrow Hft Hrule.
  assert (Hbody : ∃ f',
    fill_field encodable data_row mapping rules force_autosize_text f
    = Ok (f', 1) ∧
    V f' = Some (PName (button_state f value DEFAULT_RULE))).
  { rewrite (fill_field_resolved _ _ _ _ _ f nm col value) by done.
    rewrite write_field_button by done. cbv zeta. rewrite Hrule.
    eexists. split; [done|]. by destruct f as [? ? ? ? ? ? ? ? []]. }
  destruct Hbody as (f' & Hfill & HV). unfold button_state in HV.
  split; [by exists f'|]. split; [done|]. split; [done|].
  split; [apply should_check_DEFAULT_RULE|].
  intros ->. split; [|split; [done|]].
  - split; intros Hm%elem_of_norm_fmap;
      apply (bool_decide_pack _) in Hm; by vm_compute in Hm.
  - by exists f'.
Qed.

End FillNode.

(** C4 at the example of the specification: [Consent] is ["true"], so
    [Agree] gets its on-token [/Yes]. *)
Lemma button_fill_state_witness :
  ∃ f' st,
    fill_field encode_all (example_row "true") example_mapping no_rules true
      example_Agree = Ok (f', 1) ∧
    st = (if should_check "true" (default DEFAULT_RULE (no_rules !! "Agree"))
          then get_checkbox_on_value example_Agree else PdfName_Off) ∧
    V f' = Some (PName st) ∧
    (Kids example_Agree ≠ [] →
     Kids f' = set_AS (Some st) <$> Kids example_Agree ∧
     Forall (λ kid, AS kid = Some st) (Kids f') ∧
     f' = set_Kids (Kids f') (set_V (Some (PName st)) example_Agree)) ∧
    (Kids example_Agree = [] →
     f' = set_AS (Some st) (set_V (Some (PName st)) example_Agree)) ∧
    (∀ f'' n,
       fill_node encode_all (example_row "true") example_mapping no_rules true
         (AS example_Agree) example_Agree = Ok (f'', n) →
       V f'' = Some (PName st)).
Proof.
  apply (button_fill_state encode_all (example_row "true") example_mapping no_rules
           true example_Agree "Agree" "Consent" "true");
    [reflexivity | reflexivity | discriminate | reflexivity | reflexivity].
Defined.

(** C5 at the example: the row has no [FullName] column, so [Name] is
    left as it is. *)
Lemma absent_column_skips_witness :
  fill_field encode_all empty_row example_mapping no_rules true example_Name
  = Ok (example_Name, 0).
Proof.
  apply (absent_column_skips encode_all empty_row example_mapping no_rules true
           example_Name "Name" "FullName"); reflexivity.
Defined.

(** C5, as stated, fails: with no [FullName] column in the row the text
    field [Name] is not filled with the empty string and counted; the
    body leaves it untouched and counts nothing. *)
Lemma missing_column_not_blank :
  ¬ missing_column_is_blank encode_all empty_row example_mapping no_rules true example_Name.
Proof.
  intros H.
  specialize (H "Name" "FullName" eq_refl eq_refl eq_refl).
  vm_compute in H. discriminate H.
Qed.

(** C6 at the example of the specification: [Consent] is ["Y"]. *)
Lemma default_rule_applies_witness :
  (∃ f',
     fill_field encode_all (example_row "Y") example_mapping no_rules true
       example_Agree = Ok (f', 1) ∧
     V f' = Some (PName (if should_check "Y" DEFAULT_RULE
                         then get_checkbox_on_value example_Agree
                         else PdfName_Off))) ∧
  DEFAULT_RULE
  = Rule (Some ["yes"; "true"; "1"; "x"; "on"; "checked"; "male"])
         (Some ["no"; "false"; "0"; "off"; "unchecked"; ""; "female"])
         (Some "off") ∧
  default_polarity DEFAULT_RULE = false ∧
  (∀ v, should_check v DEFAULT_RULE
        = bool_decide (norm v ∈
            ["yes"; "true"; "1"; "x"; "on"; "checked"; "male"])) ∧
  ("Y" = "Y" →
   in_bucket "Y" DEFAULT_RULE Default ∧
   should_check "Y" DEFAULT_RULE = false ∧
   ∃ f',
     fill_field encode_all (example_row "Y") example_mapping no_rules true
       example_Agree = Ok (f', 1) ∧
     V f' = Some (PName PdfName_Off)).
Proof.
  apply (default_rule_applies encode_all (example_row "Y") example_mapping no_rules
           true example_Agree "Agree" "Consent" "Y");
    [reflexivity | reflexivity | discriminate | reflexivity | reflexivity
    | reflexivity].
Defined.

(** ** The fill call as a whole *)

Section FillCall.

Variable encodable : string → bool.

Local Abbreviation fill := (fill_pdf_with_pdfrw encodable).

(** A fill call either raises and leaves the files as they are, or
  returns a count and has written the output file. *)
Lemma fill_outcome fs template_path output_path data_row mapping rules force :
(∃ e, fill fs template_path output_path data_row mapping rules force
      = (fs, Raise e)) ∨
(∃ doc n, fill fs template_path output_path data_row mapping rules force
          = (<[output_path := doc]> fs, Ok n)).
Proof.
unfold fill_pdf_with_pdfrw.
destruct (fs !! template_path) as [template|]; [|left; by eexists].
destruct (AcroForm template) as [acro|]; [|left; by eexists].
destruct (is_xfa_pdf template); [left; by eexists|].
destruct (Fields acro) as [|f l]; [left; by eexists|].
destruct (fill_fields _ _ _ _ _ (f :: l)) as [[fields' n]|e];
  [right; by eexists _, _ | left; by eexists].
Qed.

Lemma fill_raise_unchanged fs template_path output_path data_row mapping rules
  force fs' e :
fill fs template_path output_path data_row mapping rules force
= (fs', Raise e) → fs' = fs.
Proof.
destruct (fill_outcome fs template_path output_path data_row mapping rules
            force) as [(e' & ->)|(doc & n & ->)]; congruence.
Qed.

(** C10: a template that has a form root without an XFA entry and whose
  [Fields] list is absent or empty makes the fill call raise its
  no-fields error, as a missing form root and an XFA entry make it
  raise theirs; whenever the call raises, every file, the output path
  included, is as it was before the call; and the batch loop records
  the row as [ERROR] with no filled fields and adds no output file. *)
Theorem empty_fields_fatal (pick_name : nat → gmap string string → gset string → string)
  (fs : gmap string pdf) (template_path output_path : string)
  (data_row mapping : gmap string string) (rules : gmap string rule)
  (force : bool) (template : pdf) (acro : acroform) :
fs !! template_path = Some template →
AcroForm template = Some acro → XFA acro = None → Fields acro = [] →
fill fs template_path output_path data_row mapping rules force
= (fs, Raise "AcroForm exists, but no fields found in AcroForm.Fields") ∧
(∀ t, fs !! template_path = Some t → AcroForm t = None →
      fill fs template_path output_path data_row mapping rules force
      = (fs, Raise "No AcroForm found in PDF.")) ∧
(∀ t a x, fs !! template_path = Some t → AcroForm t = Some a →
          XFA a = Some x →
          fill fs template_path output_path data_row mapping rules force
          = (fs, Raise "This PDF is XFA. Convert to AcroForm first.")) ∧
(∀ tp op row m r fc fs' e,
   fill fs tp op row m r fc = (fs', Raise e) →
   fs' = fs ∧ fs' !! op = fs !! op) ∧
(∀ st i,
   files st = fs →
   let st' := batch_body encodable pick_name template_path mapping rules
                st i data_row in
   files st' = fs ∧ out_files st' = out_files st ∧
   report_rows st' = report_rows st ++
     [ReportRow (i + 1) (pick_name (i + 1) data_row (used_names st)) "ERROR" 0
        "AcroForm exists, but no fields found in AcroForm.Fields"]).
Proof.
intros Htpl Hacro Hxfa Hfields.
assert (Hfatal : ∀ op row,
  fill fs template_path op row mapping rules force
  = (fs, Raise "AcroForm exists, but no fields found in AcroForm.Fields")).
{ intros op row. unfold fill_pdf_with_pdfrw, is_xfa_pdf.
  rewrite Htpl, Hacro, Hxfa, Hfields.
  by rewrite bool_decide_eq_false_2 by (by intros ?). }
split; [apply Hfatal|]. split; [|split; [|split]].
- intros t Ht Hnone. unfold fill_pdf_with_pdfrw. by rewrite Ht, Hnone.
- intros t a x Ht Ha Hx. unfold fill_pdf_with_pdfrw, is_xfa_pdf.
  rewrite Ht, Ha, Hx. by rewrite bool_decide_eq_true_2.
- intros tp op row m r fc fs' e Hraise.
  apply fill_raise_unchanged in Hraise. by subst.
- intros st i Hfs. unfold batch_body, row_fill. rewrite Hfs.
  assert (fill_pdf_with_pdfrw encodable fs template_path
            (pick_name (i + 1) data_row (used_names st)) data_row mapping
            rules true
          = (fs, Raise "AcroForm exists, but no fields found in AcroForm.Fields"))
    as ->; [|done].
  unfold fill_pdf_with_pdfrw, is_xfa_pdf.
  rewrite Htpl, Hacro, Hxfa, Hfields.
  by rewrite bool_decide_eq_false_2 by (by intros ?).
Qed.

(** ** The batch loop *)

Variable pick_name : nat → gmap string string → gset string → string.
Variables (pdf_path : string) (mapping : gmap string string).
Variable rules : gmap string rule.

Local Abbreviation body := (batch_body encodable pick_name pdf_path mapping rules).
Local Abbreviation loop := (batch_loop encodable pick_name pdf_path mapping rules).
Local Abbreviation outcomes :=
(fill_outcomes encodable pick_name pdf_path mapping rules).

(** One turn of the loop appends one entry, which tells the outcome of
  the row's fill call. *)
Lemma batch_body_entry st i r :
∃ e, report_rows (body st i r) = report_rows st ++ [e] ∧
     entry_consistent e
       (row_fill encodable pick_name pdf_path mapping rules st i r).2 ∧
     row e = i + 1.
Proof.
unfold batch_body, row_fill.
destruct (fill_outcome (files st) pdf_path
            (pick_name (i + 1) r (used_names st)) r mapping rules true)
  as [(e & ->)|(doc & n & ->)].
- eexists. split; [done|]. split; [|done]. unfold entry_consistent; simpl.
  split; [split; [done | by intros (? & ? & _)]|].
  split; [done|]. split; [split; [by eexists | done]|].
  split; [done|]. done.
- rewrite lookup_insert_eq. eexists. split; [done|]. split; [|done].
  unfold entry_consistent; simpl.
  destruct n as [|n]; simpl.
  + split; [split; [done | intros (? & [= <-] & ?); lia]|].
    split; [done|]. split; [split; [done | by intros (? & ?)]|].
    split; [by intros ? [= <-] | done].
  + split; [split; [intros _; exists (S n); split; [done | lia] | done]|].
    split; [done|]. split; [split; [done | by intros (? & ?)]|].
    split; [by intros ? [= <-] | done].
Qed.

Lemma batch_loop_report rows i st :
∃ new, report_rows (loop i rows st) = report_rows st ++ new ∧
       Forall2 entry_consistent new (outcomes i rows st) ∧
       row <$> new = seq (i + 1) (length rows).
Proof.
revert i st. induction rows as [|r rows IH]; intros i st.
- exists []. by rewrite app_nil_r.
- cbn [batch_loop fill_outcomes].
  destruct (batch_body_entry st i r) as (e & He & Hcons & Hrow).
  destruct (IH (S i) (body st i r)) as (new & Hnew & HF & Hrows).
  exists (e :: new). split; [|split].
  + by rewrite Hnew, He, <- app_assoc.
  + by constructor.
  + cbn [length seq]. rewrite fmap_cons, Hrow, Hrows.
    by replace (S i + 1) with (S (i + 1)) by lia.
Qed.

(** C8: for every list of rows the loop started by the button leaves a
  report with one entry per row, the entries numbered from 1 in row
  order; the entry of a row is [OK] exactly when the row's fill call
  returned a positive count, [ZERO_FILLED] exactly when it returned
  zero and [ERROR] exactly when it raised; its count is the returned
  one; and no entry with a count of zero is [OK]. *)
Theorem batch_report_consistent (fs : gmap string pdf)
  (rows : list (gmap string string)) :
length (report_rows (loop 0 rows (batch_init fs))) = length rows ∧
row <$> report_rows (loop 0 rows (batch_init fs)) = seq 1 (length rows) ∧
Forall2 entry_consistent
  (report_rows (loop 0 rows (batch_init fs)))
  (outcomes 0 rows (batch_init fs)) ∧
Forall (λ e, filled_fields e = 0 → status e ≠ "OK")
  (report_rows (loop 0 rows (batch_init fs))).
Proof.
destruct (batch_loop_report rows 0 (batch_init fs)) as (new & Hnew & HF & Hrows).
cbn [batch_init report_rows app] in Hnew. rewrite Hnew.
split; [|split; [done|split; [done|]]].
- apply (f_equal length) in Hrows. by rewrite length_fmap, length_seq in Hrows.
- clear -HF. induction HF as [|e o ?? He _ IH]; constructor; [|done].
  by destruct He as (_ & _ & _ & _ & ?).
Qed.

End FillCall.

(** ** Export and import of the mapping JSON *)

Lemma normalize_not_bound :
  bool_decide ("normalize_imported_schema" ∈ app_globals) = false.
Proof. by vm_compute. Qed.

(** C7, what the code does: [app.py] calls [normalize_imported_schema]
    and binds no such name, so for every uploaded file the import
    handler leaves the mapping and the rules of the session as they
    were; for a file that parses and was not imported before, it shows
    the name error as an invalid-JSON message.  Importing never
    reproduces an exported configuration. *)
Theorem import_never_applies (normalize : normalizer) (st : session)
    (import_hash : string) (raw : upload) (df_columns pdf_fields : list string) :
  ss_mapping (import_handler app_globals normalize st import_hash raw
                df_columns pdf_fields).1 = ss_mapping st ∧
  ss_rules (import_handler app_globals normalize st import_hash raw
              df_columns pdf_fields).1 = ss_rules st ∧
  (∀ obj, raw = JsonText obj → ss_last_import_hash st ≠ Some import_hash →
     (import_handler app_globals normalize st import_hash raw
        df_columns pdf_fields).2
     = "Invalid JSON: name 'normalize_imported_schema' is not defined").
Proof.
  unfold import_handler, call_normalize. rewrite normalize_not_bound.
  case_bool_decide as Hh; [by split; [|split]|].
  destruct raw as [obj|]; (split; [done|]); (split; [done|]); [|done].
  by intros ? _ _.
Qed.

(** C7 at the specification's example: its configuration is exported,
    and the exported file is imported into a fresh session over the same
    template and data.  The session's mapping stays empty. *)
Example import_of_export_not_restored (normalize : normalizer) :
  let saved := Session example_mapping no_rules None in
  let p := export_payload saved ("p", "e") ("template.pdf", "data.csv")
             "2026-01-01 00:00:00" in
  let fresh := Session ∅ ∅ None in
  import_handler app_globals normalize fresh "h" (JsonText p)
    ["FullName"; "Consent"] ["Name"; "Agree"]
  = (Session ∅ ∅ (Some "h"),
     "Invalid JSON: name 'normalize_imported_schema' is not defined") ∧
  ss_mapping (import_handler app_globals normalize fresh "h" (JsonText p)
                ["FullName"; "Consent"] ["Name"; "Agree"]).1
  ≠ pl_mapping p.
Proof.
  cbv zeta. unfold import_handler, call_normalize.
  rewrite normalize_not_bound. split; [done|].
  cbn. intros H. apply (f_equal (λ m, m !! "Name")) in H. by vm_compute in H.
Qed.

(** With the name bound to a function that does what the specification
    asks of it, the same import reproduces the exported mapping and rules,
    provided every mapped column is a column of the data and every rule
    is for a field of the template. *)
Lemma import_of_export_with_normalizer (globals : list string) (st fresh : session)
    (hashes names : string * string) (now_ts import_hash : string)
    (df_columns pdf_fields : list string) :
  "normalize_imported_schema" ∈ globals →
  ss_last_import_hash fresh ≠ Some import_hash →
  (∀ f c, ss_mapping st !! f = Some c → c ∈ df_columns) →
  (∀ f r, ss_rules st !! f = Some r → f ∈ pdf_fields) →
  let s' := (import_handler globals spec_normalize fresh import_hash
               (JsonText (export_payload st hashes names now_ts))
               df_columns pdf_fields).1 in
  ss_mapping s' = ss_mapping st ∧ ss_rules s' = ss_rules st.
Proof.
  intros Hbound Hnew Hcols Hfields. cbv zeta.
  unfold import_handler, call_normalize.
  rewrite (bool_decide_eq_false_2 _ Hnew), (bool_decide_eq_true_2 _ Hbound).
  unfold spec_normalize, export_payload. cbn.
  split; apply map_filter_id; intros k v Hkv; cbn; eauto.
Qed.

(** C10 at a template whose form root has an empty [Fields] list. *)
Lemma empty_fields_fatal_witness :
  fill_pdf_with_pdfrw encode_all no_fields_files "template.pdf" "out.pdf"
    (example_row "Y") example_mapping no_rules true
  = (no_fields_files,
     Raise "AcroForm exists, but no fields found in AcroForm.Fields").
Proof.
  refine (proj1 (empty_fields_fatal encode_all name_by_FullName
                   no_fields_files "template.pdf" "out.pdf" (example_row "Y")
                   example_mapping no_rules true no_fields_template
                   (AcroFormDict None None []) _ _ _ _)); reflexivity.
Defined.

(** ** The end-to-end examples of the specification *)

(** [Consent] is ["Y"]: [Agree] becomes [/Off], [Name] becomes the cell of
    [FullName] with its font size set to auto, and two fields are
    counted. *)
Example fill_example_Y :
  fill_pdf_with_pdfrw encode_all example_files "template.pdf" "out.pdf"
    (example_row "Y") example_mapping no_rules true
  = (<["out.pdf" :=
        Pdf (Some (AcroFormDict None (Some true)
          [ Field (Some "(Name)") (Some "/Tx") (Some (PString "Ada Lovelace"))
              None None (Some "/Helv 0 Tf 0 g") None None [];
            Field (Some "(Agree)") (Some "/Btn") (Some (PName "/Off"))
              (Some "/Off") (Some (ApDict (Some ["/Off"; "/Yes"])))
              None None None [] ])) []]> example_files,
     Ok 2).
Proof. by vm_compute. Qed.

(** [Consent] is ["true"]: [Agree] becomes its on-token [/Yes]. *)
Example fill_example_true :
  ∃ fs',
    fill_pdf_with_pdfrw encode_all example_files "template.pdf" "out.pdf"
      (example_row "true") example_mapping no_rules true = (fs', Ok 2) ∧
    (doc ← fs' !! "out.pdf"; acro ← AcroForm doc; Some (V <$> Fields acro))
    = Some [Some (PString "Ada Lovelace"); Some (PName "/Yes")].
Proof. eexists. split; by vm_compute. Qed.

(** A mapping entry for a field the template does not have adds nothing
    to the count and raises nothing. *)
Example fill_example_unknown_field :
  (fill_pdf_with_pdfrw encode_all example_files "template.pdf" "out.pdf"
     (example_row "true") (<["Phone" := "Consent"]> example_mapping)
     no_rules true).2 = Ok 2.
Proof. by vm_compute. Qed.

(** A row without the [FullName] column: [Name] is skipped and only
    [Agree] is counted. *)
Example fill_example_absent_column :
  ∃ fs',
    fill_pdf_with_pdfrw encode_all example_files "template.pdf" "out.pdf"
      (<["Consent" := "true"]> empty_row) example_mapping no_rules true
    = (fs', Ok 1) ∧
    (doc ← fs' !! "out.pdf"; acro ← AcroForm doc; Some (V <$> Fields acro))
    = Some [None; Some (PName "/Yes")].
Proof. eexists. split; by vm_compute. Qed.

(** A button with two kid widgets, one of them with the appearance keys:
    the on-token is found on the kid and written to both kids. *)
Example fill_example_kids :
  let kid1 := Field None None None None None None None (Some "/Widget") [] in
  let kid2 := Field None None None None
                (Some (ApDict (Some ["/Off"; "/Checkbox_40"]))) None None
                (Some "/Widget") [] in
  let group := Field (Some "(Agree)") (Some "/Btn") None None None None None
                 None [kid1; kid2] in
  fill_node encode_all (example_row "yes") example_mapping no_rules true
    None group
  = Ok (Field (Some "(Agree)") (Some "/Btn") (Some (PName "/Checkbox_40"))
          None None None None None
          [set_AS (Some "/Checkbox_40") kid1; set_AS (Some "/Checkbox_40") kid2],
        1).
Proof. by vm_compute. Qed.

(** A batch of three rows over the example template, and the same batch
    over the template without fields. *)
Example batch_example_report :
  report_rows
    (batch_loop encode_all name_by_FullName "template.pdf" example_mapping
       no_rules 0
       [example_row "Y"; <["Consent" := "true"]> empty_row; empty_row]
       (batch_init example_files))
  = [ ReportRow 1 "Ada Lovelace.pdf" "OK" 2 "";
      ReportRow 2 "row.pdf" "OK" 1 "";
      ReportRow 3 "row.pdf" "ZERO_FILLED" 0 "" ].
Proof. by vm_compute. Qed.

Example batch_example_errors :
  report_rows
    (batch_loop encode_all name_by_FullName "template.pdf" example_mapping
       no_rules 0 [example_row "Y"; example_row "true"]
       (batch_init no_fields_files))
  = [ ReportRow 1 "Ada Lovelace.pdf" "ERROR" 0
        "AcroForm exists, but no fields found in AcroForm.Fields";
      ReportRow 2 "Ada Lovelace.pdf" "ERROR" 0
        "AcroForm exists, but no fields found in AcroForm.Fields" ].
Proof. by vm_compute. Qed.

(** * Further properties of the code *)

(** ** The field tree walker *)

(** Induction over a node and all the nodes below it. *)
Lemma field_tree_ind (P : field → Prop) :
  (∀ t ft v a ap da ff sub kids,
     Forall P kids → P (Field t ft v a ap da ff sub kids)) →
  ∀ f, P f.
Proof.
  intros Hstep. fix IH 1. intros [t ft v a ap da ff sub kids].
  apply Hstep. induction kids as [|k kids IHkids]; [constructor|].
  constructor; [apply IH | done].
Qed.

Lemma iter_fields_node_unfold f :
  iter_fields_node f = f :: iter_fields (Kids f).
Proof.
  by destruct f as [t ft v a ap da ff sub kids].
Qed.

Lemma iter_fields_cons f l :
  iter_fields (f :: l) = f :: iter_fields (Kids f) ++ iter_fields l.
Proof.
  unfold iter_fields at 1. cbn [flat_map].
  by rewrite iter_fields_node_unfold.
Qed.

Lemma iter_fields_cons_node f l :
  iter_fields (f :: l) = iter_fields_node f ++ iter_fields l.
Proof. done. Qed.

Lemma iter_fields_app l1 l2 :
  iter_fields (l1 ++ l2) = iter_fields l1 ++ iter_fields l2.
Proof. unfold iter_fields. apply flat_map_app. Qed.

Lemma elem_of_iter_fields_node f g :
  g ∈ iter_fields_node f ↔ descends f g.
Proof.
  split.
  - revert g. induction f as [t ft v a ap da ff sub kids IH] using field_tree_ind.
    intros g. rewrite iter_fields_node_unfold, elem_of_cons. cbn [Kids].
    intros [->|Hin]; [constructor|].
    unfold iter_fields in Hin. apply list_elem_of_In, in_flat_map in Hin
      as (k & Hk%list_elem_of_In & Hg%list_elem_of_In).
    rewrite Forall_forall in IH.
    apply (descends_kid _ k); [done|]. by apply IH.
  - induction 1 as [f|f k g Hk _ IH].
    + rewrite iter_fields_node_unfold. by left.
    + rewrite iter_fields_node_unfold. right.
      unfold iter_fields. apply list_elem_of_In, in_flat_map.
      exists k. split; by apply list_elem_of_In.
Qed.

(** X1: the walker yields a node, then everything under its kids, then
    goes on with the node's next sibling (depth first, each parent before
    its kids); what it yields for a list of nodes is exactly the nodes
    reachable from the list along [Kids]; an empty or absent list yields
    nothing. *)
Theorem iter_fields_preorder (l : list field) :
  iter_fields [] = [] ∧
  (∀ f rest, iter_fields (f :: rest)
             = f :: iter_fields (Kids f) ++ iter_fields rest) ∧
  (∀ l', iter_fields (l ++ l') = iter_fields l ++ iter_fields l') ∧
  (∀ g, g ∈ iter_fields l ↔ ∃ f, f ∈ l ∧ descends f g) ∧
  (∀ f, f ∈ l → f ∈ iter_fields l ∧ ∀ k, k ∈ Kids f → k ∈ iter_fields l).
Proof.
  assert (Hreach : ∀ g, g ∈ iter_fields l ↔ ∃ f, f ∈ l ∧ descends f g).
  { intros g. unfold iter_fields. rewrite list_elem_of_In, in_flat_map.
    split; intros (f & Hf & Hg); exists f.
    - split; [by apply list_elem_of_In|].
      by apply elem_of_iter_fields_node, list_elem_of_In.
    - split; [by apply list_elem_of_In|].
      by apply list_elem_of_In, elem_of_iter_fields_node. }
  split; [done|]. split; [apply iter_fields_cons|].
  split; [apply iter_fields_app|]. split; [done|].
  intros f Hf. split.
  - apply Hreach. exists f. split; [done | constructor].
  - intros k Hk. apply Hreach. exists f. split; [done|].
    apply (descends_kid _ k); [done | constructor].
Qed.

(** ** [clean_field_name] *)

Lemma append_String c s t : String c s +:+ t = String c (s +:+ t).
Proof. done. Qed.

Lemma append_Empty t : "" +:+ t = t.
Proof. done. Qed.

Lemma lstrip_first s c :
  first_char (Py.lstrip s) = Some c → Py.isspace c = false.
Proof.
  induction s as [|d s IH]; simpl; [done|].
  destruct (Py.isspace d) eqn:Hd; [done|]. simpl. by intros [= <-].
Qed.

Lemma rstrip_cases c s :
  Py.rstrip (String c s) = "" ∨ Py.rstrip (String c s) = String c (Py.rstrip s).
Proof.
  simpl. destruct (Py.rstrip s); [|by right].
  destruct (Py.isspace c); [by left | by right].
Qed.

Lemma rstrip_first s c :
  first_char (Py.rstrip s) = Some c → first_char s = Some c.
Proof.
  destruct s as [|d s]; [done|].
  destruct (rstrip_cases d s) as [-> | ->]; done.
Qed.

Lemma rstrip_last s c :
  last_char (Py.rstrip s) = Some c → Py.isspace c = false.
Proof.
  induction s as [|d s IH]; [done|]. simpl.
  destruct (Py.rstrip s) as [|e r] eqn:Hr.
  - destruct (Py.isspace d) eqn:Hd; [done|]. simpl. by intros [= <-].
  - apply IH.
Qed.

Lemma strip_edges s : edges_not_space (Py.strip s).
Proof.
  unfold Py.strip. split; intros c Hc.
  - apply rstrip_first in Hc. by eapply lstrip_first.
  - by eapply rstrip_last.
Qed.

Lemma clean_field_name_shape tval nm :
  clean_field_name tval = Some nm → nm ≠ "" ∧ edges_not_space nm.
Proof.
  unfold clean_field_name.
  destruct tval as [t|]; [|done]. cbv zeta.
  match goal with
  | |- context [Py.truthy (Py.strip ?x)] => set (name := x)
  end.
  destruct (Py.strip name) as [|c r] eqn:Hname; [done|].
  simpl. intros [= <-]. split; [done|]. rewrite <- Hname. apply strip_edges.
Qed.

(** X2: a cleaned field name is never empty and neither starts nor ends
    with whitespace; a missing [/T] has no name. *)
Theorem clean_field_name_trimmed (tval : option string) (nm : string) :
  clean_field_name None = None ∧
  (clean_field_name tval = Some nm → nm ≠ "" ∧ edges_not_space nm).
Proof. split; [done | apply clean_field_name_shape]. Qed.

Lemma lstrip_all_space ws : all_space ws = true → Py.lstrip ws = "".
Proof.
  induction ws as [|c ws IH]; [done|]. simpl.
  intros [Hc Hws]%andb_true_iff. rewrite Hc. by apply IH.
Qed.

Lemma lstrip_app s t :
  Py.lstrip (s +:+ t)
  = if all_space s then Py.lstrip t else Py.lstrip s +:+ t.
Proof.
  induction s as [|c s IH]; [done|].
  rewrite append_String. simpl. destruct (Py.isspace c); simpl; [apply IH | done].
Qed.

Lemma rstrip_all_space ws : all_space ws = true → Py.rstrip ws = "".
Proof.
  induction ws as [|c ws IH]; [done|]. simpl.
  intros [Hc Hws]%andb_true_iff. by rewrite (IH Hws), Hc.
Qed.

Lemma rstrip_app_all_space s ws :
  all_space ws = true → Py.rstrip (s +:+ ws) = Py.rstrip s.
Proof.
  intros Hws. induction s as [|c s IH].
  - rewrite append_Empty. by apply rstrip_all_space.
  - rewrite append_String. simpl. by rewrite IH.
Qed.

Lemma strip_padded ws1 t ws2 :
  all_space ws1 = true → all_space ws2 = true →
  Py.strip (ws1 +:+ t +:+ ws2) = Py.strip t.
Proof.
  intros H1 H2. unfold Py.strip. rewrite lstrip_app, H1, lstrip_app.
  destruct (all_space t) eqn:Ht.
  - by rewrite (lstrip_all_space ws2), (lstrip_all_space t).
  - by apply rstrip_app_all_space.
Qed.

Lemma rstrip_snoc s c :
  Py.isspace c = false → Py.rstrip (s +:+ String c "") = s +:+ String c "".
Proof.
  intros Hc. induction s as [|d s IH].
  - rewrite append_Empty. simpl. by rewrite Hc.
  - rewrite append_String. simpl. rewrite IH.
    by destruct s.
Qed.

Lemma endswith_snoc s c : Py.endswith (s +:+ String c "") c = true.
Proof.
  induction s as [|d s IH].
  - rewrite append_Empty. simpl. by apply bool_decide_eq_true.
  - rewrite append_String. simpl. by destruct s.
Qed.

Lemma drop_last_snoc s c : Py.drop_last (s +:+ String c "") = s.
Proof.
  induction s as [|d s IH]; [done|].
  rewrite append_String. simpl. rewrite IH. by destruct s.
Qed.

Lemma strip_parenthesised s :
  Py.strip ("(" +:+ s +:+ ")") = "(" +:+ s +:+ ")".
Proof.
  unfold Py.strip. change ("(" +:+ s +:+ ")") with (String "(" (s +:+ ")")).
  change (Py.lstrip (String "(" (s +:+ ")"))) with (String "(" (s +:+ ")")).
  simpl. rewrite (rstrip_snoc s ")") by done. by destruct s.
Qed.

(** X3: whitespace around the raw name makes no difference to the clean
    name; a name wrapped in one pair of parentheses cleans to what is
    between them, trimmed, and to no name when that is blank; a raw name
    that is blank has no clean name. *)
Theorem clean_field_name_normalises (t ws1 ws2 : string) :
  all_space ws1 = true → all_space ws2 = true →
  clean_field_name (Some (ws1 +:+ t +:+ ws2)) = clean_field_name (Some t) ∧
  clean_field_name (Some (ws1 +:+ "(" +:+ t +:+ ")" +:+ ws2))
  = (if Py.truthy (Py.strip t) then Some (Py.strip t) else None) ∧
  clean_field_name (Some ws1) = None.
Proof.
  intros H1 H2. unfold clean_field_name. split; [|split].
  - by rewrite strip_padded.
  - replace (ws1 +:+ "(" +:+ t +:+ ")" +:+ ws2)
      with (ws1 +:+ ("(" +:+ t +:+ ")") +:+ ws2).
    2: { f_equal. change ("(" +:+ t +:+ ")" +:+ ws2)
           with (String "(" (t +:+ (")" +:+ ws2))).
         change (("(" +:+ t +:+ ")") +:+ ws2)
           with (String "(" ((t +:+ ")") +:+ ws2)).
         f_equal. induction t as [|c t IH]; [done|].
         rewrite !append_String. by f_equal. }
    rewrite strip_padded, strip_parenthesised by done.
    change ("(" +:+ t +:+ ")") with (String "(" (t +:+ ")")).
    cbn [Py.startswith Py.slice_1_m1].
    replace (Py.endswith (String "(" (t +:+ ")")) ")"%char) with true.
    2: { symmetry. pose proof (endswith_snoc t ")"%char) as He.
         simpl. by destruct (t +:+ ")"). }
    rewrite bool_decide_eq_true_2 by done. simpl.
    by rewrite drop_last_snoc.
  - replace (Py.strip ws1) with "".
    2: { unfold Py.strip. by rewrite (lstrip_all_space ws1). }
    done.
Qed.

(** X3 at a name with a tab before it and a space after it. *)
Lemma clean_field_name_normalises_witness :
  clean_field_name (Some ("	" +:+ "Given Name" +:+ " "))
  = clean_field_name (Some "Given Name").
Proof.
  refine (proj1 (clean_field_name_normalises "Given Name" "	" " " _ _));
    reflexivity.
Defined.

(** ** [extract_pdf_fields_all] *)

Lemma harvest_names_clean template nm :
  nm ∈ (harvest template).*1 → nm ≠ "" ∧ edges_not_space nm.
Proof.
  assert (Hentry : ∀ f tp, field_entry f = Some (nm, tp) →
                           nm ≠ "" ∧ edges_not_space nm).
  { intros f tp. unfold field_entry.
    destruct (clean_field_name (T f)) as [n|] eqn:Hn; [|done].
    intros [= -> _]. by eapply clean_field_name_shape. }
  intros ([nm' tp] & -> & Hin)%list_elem_of_fmap. simpl.
  unfold harvest in Hin. apply elem_of_app in Hin as [Hin|Hin].
  - destruct (AcroForm template); [|by apply elem_of_nil in Hin].
    apply list_elem_of_omap in Hin as (f & _ & He). by eapply Hentry.
  - apply list_elem_of_omap in Hin as (a & _ & He).
    destruct (annot_dict template a) as [g|]; [|done].
    simpl in He. unfold widget_entry in He.
    case_bool_decide; [|done]. by eapply Hentry.
Qed.

(** X4: extraction raises exactly when the template has no form root or
    its form root has an XFA entry, and otherwise returns a catalog; in a
    returned catalog no name is listed twice, the listed names are
    exactly the names that have a type, so there are as many names as
    types, and every listed name is non-empty and trimmed.  A form root
    without fields and without page widgets gives the empty catalog and
    no error. *)
Theorem extract_catalog_coherent (template : pdf) :
  (AcroForm template = None →
   extract_pdf_fields_all template
   = Raise "PDF has no AcroForm fields (not standard fillable).") ∧
  (∀ acro x, AcroForm template = Some acro → XFA acro = Some x →
     extract_pdf_fields_all template
     = Raise "This PDF is XFA. Convert to AcroForm first.") ∧
  (∀ acro, AcroForm template = Some acro → XFA acro = None →
     ∃ order merged, extract_pdf_fields_all template = Ok (order, merged)) ∧
  (∀ order merged,
     extract_pdf_fields_all template = Ok (order, merged) →
     NoDup order ∧
     (∀ nm, nm ∈ order ↔ is_Some (merged !! nm)) ∧
     length order = size merged ∧
     (∀ nm, nm ∈ order → nm ≠ "" ∧ edges_not_space nm)) ∧
  (∀ acro, AcroForm template = Some acro → XFA acro = None →
     Fields acro = [] → pages template = [] →
     extract_pdf_fields_all template = Ok ([], ∅)).
Proof.
  unfold extract_pdf_fields_all, is_xfa_pdf.
  split; [by intros ->|]. split; [|split; [|split]].
  - intros acro x -> ->. by rewrite bool_decide_eq_true_2.
  - intros acro -> ->. rewrite bool_decide_eq_false_2 by (by intros ?).
    destruct (merge_fields (harvest template)) as [m o]. by exists o, m.
  - intros order merged.
    destruct (AcroForm template) as [acro|]; [|done].
    case_bool_decide; [done|].
    destruct (merge_fields_inv (harvest template)) as (_ & Hnone & Horder).
    destruct (merge_fields (harvest template)) as [m o] eqn:Hm.
    intros [= <- <-]. simpl in *.
    assert (Hdom : ∀ nm, nm ∈ o ↔ is_Some (m !! nm)).
    { intros nm. rewrite Horder, first_seen_elem.
      rewrite <- not_eq_None_Some, Hnone. split; [tauto|].
      intros Hnn. by apply dec_stable. }
    split; [rewrite Horder; apply first_seen_NoDup|]. split; [done|]. split.
    + rewrite <- size_dom.
      assert (dom m = list_to_set o) as ->.
      { apply set_eq. intros nm. by rewrite elem_of_dom, elem_of_list_to_set, Hdom. }
      rewrite size_list_to_set; [done|]. rewrite Horder. apply first_seen_NoDup.
    + intros nm Hnm. rewrite Horder, first_seen_elem in Hnm.
      by eapply harvest_names_clean.
  - intros acro Ha Hx Hf Hp. rewrite Ha, Hx.
    rewrite bool_decide_eq_false_2 by (by intros ?).
    unfold harvest. by rewrite Ha, Hf, Hp.
Qed.

(** ** The fill engine over a whole document *)

Section FillDocument.

Variable encodable : string → bool.
Variables (data_row mapping : gmap string string).
Variable rules : gmap string rule.
Variable force_autosize_text : bool.

Local Abbreviation body := (fill_field encodable data_row mapping rules force_autosize_text).
Local Abbreviation node := (fill_node encodable data_row mapping rules force_autosize_text).
Local Abbreviation nodes := (fill_fields encodable data_row mapping rules force_autosize_text).
Local Abbreviation effect := (node_effect encodable data_row mapping rules force_autosize_text).
Local Abbreviation kid_of := (λ k k1 : field, k1 = set_AS (AS k1) k).

Lemma fill_field_resolve f :
  body f = match resolve data_row mapping f with
           | None => Ok (f, 0)
           | Some (nm, value) =>
               write_field encodable rules force_autosize_text nm value f
           end.
Proof.
  unfold fill_field, resolve.
  destruct (clean_field_name (T f)) as [nm|]; [|done].
  destruct (mapping !! nm) as [col|]; [|done].
  destruct (Py.truthy col); simpl; [|done].
  by destruct (data_row !! col).
Qed.

Lemma resolve_set_AS a f :
  resolve data_row mapping (set_AS a f) = resolve data_row mapping f.
Proof. by destruct f. Qed.

Lemma button_state_set_AS a g value r :
  button_state (set_AS a g) value r = button_state g value r.
Proof. by destruct g. Qed.

Lemma DA_autosize_set_AS a g :
  DA (_set_da_autosize encodable (set_AS a g))
  = DA (_set_da_autosize encodable g).
Proof.
  unfold _set_da_autosize.
  replace (DA (set_AS a g)) with (DA g) by (by destruct g).
  destruct (DA g); [|by destruct g].
  case_bool_decide; [|by destruct g].
  destruct (PdfString_encode _ _); by destruct g.
Qed.

Lemma effect_set_AS a g g' : effect (set_AS a g) g' ↔ effect g g'.
Proof.
  unfold node_effect.
  rewrite resolve_set_AS.
  replace (skeleton (set_AS a g)) with (skeleton g) by (by destruct g).
  replace (FT (set_AS a g)) with (FT g) by (by destruct g).
  replace (V (set_AS a g)) with (V g) by (by destruct g).
  replace (AP (set_AS a g)) with (AP g) by (by destruct g).
  replace (Ff (set_AS a g)) with (Ff g) by (by destruct g).
  destruct (resolve data_row mapping g) as [[nm value]|].
  - rewrite button_state_set_AS.
    replace (DA (if force_autosize_text
                 then _set_da_autosize encodable (set_AS a g) else set_AS a g))
      with (DA (if force_autosize_text
                then _set_da_autosize encodable g else g)); [done|].
    destruct force_autosize_text; [by rewrite DA_autosize_set_AS | by destruct g].
  - by replace (DA (set_AS a g)) with (DA g) by (by destruct g).
Qed.

(** The body on one node: its own entries and its count. *)
Lemma fill_field_effect f f1 c :
  body f = Ok (f1, c) → effect f f1.
Proof.
  intros Hbody. pose proof (fill_field_kids _ _ _ _ _ _ _ _ Hbody) as Hkids.
  apply Forall2_length in Hkids.
  revert Hbody. rewrite fill_field_resolve. unfold node_effect.
  destruct (resolve data_row mapping f) as [[nm value]|].
  - unfold write_field. case_bool_decide as Hft.
    + intros [= <- _]. split.
      * unfold skeleton. rewrite <- Hkids.
        by destruct f as [? ? ? ? ? ? ? ? []].
      * by destruct f as [? ? ? ? ? ? ? ? []].
    + unfold PdfString_encode. destruct (encodable value); [|done].
      simpl. intros [= <- _].
      assert (Hda : ∀ h, skeleton (_set_da_autosize encodable h) = skeleton h
                         ∧ AS (_set_da_autosize encodable h) = AS h).
      { intros h. destruct (_set_da_autosize_cases encodable h)
          as [->|(da & _ & _ & ->)]; [done | by destruct h]. }
      destruct force_autosize_text; simpl.
      * destruct (Hda f) as [Hsk Has]. by repeat split.
      * by destruct f.
  - intros [= <- _]. by repeat split.
Qed.

Lemma fill_field_count f f1 c :
  body f = Ok (f1, c) →
  c = count_fillable data_row mapping [f].
Proof.
  rewrite fill_field_resolve. unfold count_fillable, fillable.
  destruct (resolve data_row mapping f) as [[nm value]|] eqn:Hres.
  - rewrite filter_cons_True by (by rewrite Hres).
    unfold write_field. case_bool_decide; [by intros [= _ <-]|].
    destruct (PdfString_encode _ _); [|done]. by intros [= _ <-].
  - rewrite filter_cons_False by (rewrite Hres; by intros [? ?]).
    by intros [= _ <-].
Qed.

Lemma count_fillable_app l1 l2 :
  count_fillable data_row mapping (l1 ++ l2)
  = count_fillable data_row mapping l1 + count_fillable data_row mapping l2.
Proof. unfold count_fillable. by rewrite filter_app, length_app. Qed.

Lemma count_fillable_set_AS a f :
  count_fillable data_row mapping [set_AS a f]
  = count_fillable data_row mapping [f].
Proof.
  unfold count_fillable, fillable.
  destruct (decide (is_Some (resolve data_row mapping f))) as [H|H].
  - rewrite !filter_cons_True; [done..|]. by rewrite resolve_set_AS.
  - rewrite !filter_cons_False; [done..|]. by rewrite resolve_set_AS.
Qed.

(** What a walk that returns has done, node by node in walking order,
    and what it has counted. *)
Lemma fill_node_effect f :
  ∀ cur f' n, node cur f = Ok (f', n) →
    Forall2 effect (iter_fields_node f) (iter_fields_node f') ∧
    n = count_fillable data_row mapping (iter_fields_node f).
Proof.
  induction f as [t ft v a ap da ff sub kids IH] using field_tree_ind.
  intros cur f' n. rewrite fill_node_unfold.
  set (f := Field t ft v a ap da ff sub kids).
  destruct (body (set_AS cur f)) as [[f1 c]|] eqn:Hbody; [|done].
  cbn [mbind except_bind].
  destruct (nodes (Kids f1)) as [[ks m]|] eqn:Hnodes; [|done].
  intros [= <- <-].
  pose proof (fill_field_kids _ _ _ _ _ _ _ _ Hbody) as Hkids.
  change (Kids (set_AS cur f)) with kids in Hkids.
  assert (Hinner : Forall2 effect (iter_fields kids) (iter_fields ks) ∧
                   m = count_fillable data_row mapping (iter_fields kids) ∧
                   length ks = length kids).
  { clear Hbody. revert ks m Hnodes.
    induction Hkids as [|k k1 r r1 Hk _ IHr]; intros ks m.
    - intros [= <- <-]. by repeat constructor.
    - apply Forall_cons in IH as [IHk IHrest].
      cbn [fill_fields].
      assert (node (AS k1) k1 = node (AS k1) k) as ->.
      { rewrite <- (fill_node_set_AS _ _ _ _ _ (AS k1) k). by rewrite <- Hk. }
      destruct (node (AS k1) k) as [[k' a1]|] eqn:Hnode; [|done].
      cbn [mbind except_bind].
      destruct (nodes r1) as [[r' b]|] eqn:Hr; [|done].
      intros [= <- <-].
      destruct (IHk _ _ _ Hnode) as [Hek ->].
      destruct (IHr IHrest _ _ eq_refl) as (Her & -> & Hlen).
      rewrite !iter_fields_cons_node.
      split; [by apply Forall2_app|]. split; [|simpl; by rewrite Hlen].
      by rewrite count_fillable_app. }
  destruct Hinner as (Heff & -> & Hlen).
  rewrite !iter_fields_node_unfold. cbn [Kids set_Kids]. split.
  - constructor; [|by destruct f1].
    assert (Hown : effect f f1).
    { apply (effect_set_AS cur).
      by apply (fill_field_effect _ _ _ Hbody). }
    destruct Hown as [Hsk Hrest]. split.
    + unfold skeleton in *. destruct f1; simpl in *. simplify_eq.
      by rewrite Hlen.
    + by destruct f1.
  - change (f :: iter_fields (Kids f)) with ([f] ++ iter_fields kids).
    rewrite count_fillable_app. f_equal.
    rewrite (fill_field_count _ _ _ Hbody). apply count_fillable_set_AS.
Qed.

Lemma fill_fields_effect l :
  ∀ l' n, nodes l = Ok (l', n) →
    Forall2 effect (iter_fields l) (iter_fields l') ∧
    n = count_fillable data_row mapping (iter_fields l) ∧
    length l' = length l.
Proof.
  induction l as [|f l IH]; intros l' n.
  - intros [= <- <-]. by repeat constructor.
  - cbn [fill_fields].
    destruct (node (AS f) f) as [[f' a1]|] eqn:Hnode; [|done].
    cbn [mbind except_bind].
    destruct (nodes l) as [[r b]|] eqn:Hr; [|done].
    intros [= <- <-].
    destruct (fill_node_effect _ _ _ _ Hnode) as [Hef ->].
    destruct (IH _ _ eq_refl) as (Her & -> & Hlen).
    rewrite !iter_fields_cons_node.
    split; [by apply Forall2_app|]. split; [|simpl; by rewrite Hlen].
    by rewrite count_fillable_app.
Qed.

(** The walk through a list of nodes, node by node. *)
Lemma fill_fields_each l :
  ∀ l' n, nodes l = Ok (l', n) →
    Forall2 (λ k k', ∃ c m, node c k = Ok (k', m)) l l'.
Proof.
  induction l as [|f l IH]; intros l' n.
  - intros [= <- <-]. constructor.
  - cbn [fill_fields].
    destruct (node (AS f) f) as [[f' a1]|] eqn:Hnode; [|done].
    cbn [mbind except_bind].
    destruct (nodes l) as [[r b]|] eqn:Hr; [|done].
    intros [= <- <-]. constructor; [by eexists _, _ | by eapply IH].
Qed.

(** A walked node and its kids: the kids of the result are the walked
    kids of the node. *)
Lemma fill_node_kids cur f f' n :
  node cur f = Ok (f', n) →
  effect f f' ∧
  Forall2 (λ k k', ∃ c m, node c k = Ok (k', m)) (Kids f) (Kids f').
Proof.
  intros Hnode. split.
  - apply fill_node_effect in Hnode as [HF _].
    rewrite !iter_fields_node_unfold in HF. by inversion HF.
  - revert Hnode. rewrite fill_node_unfold.
    destruct (body (set_AS cur f)) as [[f1 c]|] eqn:Hbody; [|done].
    cbn [mbind except_bind].
    destruct (nodes (Kids f1)) as [[ks m]|] eqn:Hnodes; [|done].
    intros [= <- <-].
    pose proof (fill_field_kids _ _ _ _ _ _ _ _ Hbody) as Hkids.
    replace (Kids (set_AS cur f)) with (Kids f) in Hkids by (by destruct f).
    replace (Kids (set_Kids ks f1)) with ks by (by destruct f1).
    apply fill_fields_each in Hnodes. revert ks Hnodes.
    induction Hkids as [|k k1 r r1 Hk _ IH]; intros ks Hks.
    + inversion Hks. constructor.
    + inversion Hks as [|? k' ? r' (c' & m' & Hk') Hr']; subst.
      constructor; [|by apply IH].
      exists c', m'. rewrite Hk in Hk'.
      revert Hk'. destruct k; simpl. by destruct k1.
Qed.

(** A path into the form tree leads, after a walk that returns, to the
    node the walk has made of the node it led to before. *)
Lemma node_at_filled path :
  ∀ l l', Forall2 (λ k k', ∃ c m, node c k = Ok (k', m)) l l' →
  ∀ g, node_at l path = Some g →
  ∃ g', node_at l' path = Some g' ∧ effect g g'.
Proof.
  induction path as [|i rest IH]; intros l l' HF g; [done|].
  cbn [node_at]. destruct (l !! i) as [f|] eqn:Hf; [|done].
  destruct (Forall2_lookup_l _ _ _ _ _ HF Hf) as (f' & Hf' & c & m & Hnode).
  rewrite Hf'. destruct (fill_node_kids _ _ _ _ Hnode) as [Heff Hkids].
  destruct rest as [|j rest']; [intros [= <-]; by exists f'|].
  by apply IH.
Qed.

(** A walk over nodes the loop skips returns them as they are. *)
Lemma fill_node_skips f :
  ∀ cur, (∀ g, g ∈ iter_fields_node f → ¬ fillable data_row mapping g) →
         node cur f = Ok (set_AS cur f, 0).
Proof.
  induction f as [t ft v a ap da ff sub kids IH] using field_tree_ind.
  intros cur Hskip. rewrite fill_node_unfold.
  set (f := Field t ft v a ap da ff sub kids) in *.
  assert (Hbody : body (set_AS cur f) = Ok (set_AS cur f, 0)).
  { rewrite fill_field_resolve, resolve_set_AS.
    destruct (resolve data_row mapping f) as [p|] eqn:Hres; [|done].
    exfalso. apply (Hskip f); [|unfold fillable; by rewrite Hres].
    rewrite iter_fields_node_unfold. by left. }
  rewrite Hbody. cbn [mbind except_bind].
  change (Kids (set_AS cur f)) with kids.
  assert (Hkids : nodes kids = Ok (kids, 0)).
  { assert (Hsub : ∀ g, g ∈ iter_fields kids → ¬ fillable data_row mapping g).
    { intros g Hg. apply Hskip. rewrite iter_fields_node_unfold. by right. }
    clear Hbody Hskip. induction kids as [|k kids IHkids]; [done|].
    apply Forall_cons in IH as [IHk IHrest]. cbn [fill_fields].
    rewrite IHk.
    2: { intros g Hg. apply Hsub. rewrite iter_fields_cons_node.
         apply elem_of_app. by left. }
    cbn [mbind except_bind]. rewrite IHkids; [|done|].
    2: { intros g Hg. apply Hsub. rewrite iter_fields_cons_node.
         apply elem_of_app. by right. }
    cbn [mbind except_bind]. by destruct k. }
  by rewrite Hkids.
Qed.

Lemma fill_fields_skips l :
  (∀ g, g ∈ iter_fields l → ¬ fillable data_row mapping g) →
  nodes l = Ok (l, 0).
Proof.
  induction l as [|f l IH]; [done|]. intros Hskip. cbn [fill_fields].
  rewrite fill_node_skips.
  2: { intros g Hg. apply Hskip. rewrite iter_fields_cons_node.
       apply elem_of_app. by left. }
  cbn [mbind except_bind]. rewrite IH.
  2: { intros g Hg. apply Hskip. rewrite iter_fields_cons_node.
       apply elem_of_app. by right. }
  cbn [mbind except_bind]. by destruct f.
Qed.

Local Abbreviation encodable_cells :=
  (cells_encodable encodable data_row mapping).

Lemma fill_field_returns f :
  (∃ f1 c, body f = Ok (f1, c)) ↔ encodable_cells [f].
Proof.
  rewrite fill_field_resolve. unfold cells_encodable. split.
  - intros (f1 & c & Hbody) g nm value ->%list_elem_of_singleton Hres Hft.
    rewrite Hres in Hbody. unfold write_field, PdfString_encode in Hbody.
    rewrite bool_decide_eq_false_2 in Hbody by done.
    by destruct (encodable value).
  - intros Henc.
    destruct (resolve data_row mapping f) as [[nm value]|] eqn:Hres;
      [|by eexists _, _].
    unfold write_field. case_bool_decide as Hft; [by eexists _, _|].
    unfold PdfString_encode.
    rewrite (Henc f nm value); [by eexists _, _| |done..].
    by apply list_elem_of_singleton.
Qed.

Lemma encodable_cells_app l1 l2 :
  encodable_cells (l1 ++ l2) ↔ encodable_cells l1 ∧ encodable_cells l2.
Proof.
  unfold cells_encodable. split.
  - intros H. split; intros g nm value Hg; apply H; apply elem_of_app; tauto.
  - intros [H1 H2] g nm value [Hg|Hg]%elem_of_app; eauto.
Qed.

Lemma encodable_cells_set_AS a f :
  encodable_cells [set_AS a f] ↔ encodable_cells [f].
Proof.
  unfold cells_encodable. split; intros H g nm value ->%list_elem_of_singleton.
  - intros Hres Hft. apply (H (set_AS a f) nm value);
      [by apply list_elem_of_singleton | by rewrite resolve_set_AS | by destruct f].
  - rewrite resolve_set_AS. intros Hres Hft. apply (H f nm value);
      [by apply list_elem_of_singleton | done | by destruct f].
Qed.

(** The walk returns exactly when every cell it has to encode can be. *)
Lemma fill_node_returns f :
  ∀ cur, (∃ f' n, node cur f = Ok (f', n))
         ↔ encodable_cells (iter_fields_node f).
Proof.
  induction f as [t ft v a ap da ff sub kids IH] using field_tree_ind.
  intros cur. rewrite fill_node_unfold, iter_fields_node_unfold.
  set (f := Field t ft v a ap da ff sub kids) in *.
  change (f :: iter_fields (Kids f)) with ([f] ++ iter_fields kids).
  rewrite encodable_cells_app, <- (encodable_cells_set_AS cur f),
    <- fill_field_returns.
  destruct (body (set_AS cur f)) as [[f1 c]|] eqn:Hbody.
  2: { split; [by intros (? & ? & ?) | by intros [(? & ? & ?) _]]. }
  cbn [mbind except_bind].
  pose proof (fill_field_kids _ _ _ _ _ _ _ _ Hbody) as Hkids.
  change (Kids (set_AS cur f)) with kids in Hkids.
  assert (Hinner : (∃ ks m, nodes (Kids f1) = Ok (ks, m))
                   ↔ encodable_cells (iter_fields kids)).
  { clear Hbody. induction Hkids as [|k k1 r r1 Hk _ IHr].
    - split; [intros _ g ? ? Hg; by apply elem_of_nil in Hg | by eexists _, _].
    - apply Forall_cons in IH as [IHk IHrest]. specialize (IHr IHrest).
      cbn [fill_fields]. rewrite iter_fields_cons_node, encodable_cells_app.
      assert (node (AS k1) k1 = node (AS k1) k) as ->.
      { rewrite <- (fill_node_set_AS _ _ _ _ _ (AS k1) k). by rewrite <- Hk. }
      rewrite <- (IHk (AS k1)), <- IHr.
      destruct (node (AS k1) k) as [[k' a1]|];
        [|split; [by intros (? & ? & ?) | by intros [(? & ? & ?) _]]].
      cbn [mbind except_bind].
      destruct (nodes r1) as [[r' b]|];
        [|split; [by intros (? & ? & ?) | by intros [_ (? & ? & ?)]]].
      cbn [mbind except_bind].
      split; [intros _; split; by eexists _, _ | by eexists _, _]. }
  rewrite <- Hinner.
  destruct (nodes (Kids f1)) as [[ks m]|].
  - split; [intros _; split; by eexists _, _ | by eexists _, _].
  - split; [by intros (? & ? & ?) | by intros [_ (? & ? & ?)]].
Qed.

Lemma fill_fields_returns l :
  (∃ l' n, nodes l = Ok (l', n)) ↔ encodable_cells (iter_fields l).
Proof.
  induction l as [|f l IH].
  - split; [intros _ g ? ? Hg; by apply elem_of_nil in Hg | by eexists _, _].
  - cbn [fill_fields]. rewrite iter_fields_cons_node, encodable_cells_app.
    rewrite <- (fill_node_returns f (AS f)), <- IH.
    destruct (node (AS f) f) as [[f' a1]|];
      [|split; [by intros (? & ? & ?) | by intros [(? & ? & ?) _]]].
    cbn [mbind except_bind].
    destruct (nodes l) as [[r' b]|];
      [|split; [by intros (? & ? & ?) | by intros [_ (? & ? & ?)]]].
    cbn [mbind except_bind].
    split; [intros _; split; by eexists _, _ | by eexists _, _].
Qed.

End FillDocument.

(** ** [fill_pdf_with_pdfrw] as a whole *)

Section FillCallEffect.

Variable encodable : string → bool.
Variable fs : gmap string pdf.
Variables (template_path output_path : string).
Variables (data_row mapping : gmap string string).
Variable rules : gmap string rule.
Variable force_autosize_text : bool.

Local Abbreviation fill_call :=
  (fill_pdf_with_pdfrw encodable fs template_path output_path data_row
     mapping rules force_autosize_text).

(** A call that returns has walked the fields of the template. *)
Lemma fill_call_returns template acro fs' n :
  fs !! template_path = Some template → AcroForm template = Some acro →
  fill_call = (fs', Ok n) →
  ∃ fields',
    fill_fields encodable data_row mapping rules force_autosize_text
      (Fields acro) = Ok (fields', n) ∧
    XFA acro = None ∧ Fields acro ≠ [] ∧
    fs' = <[output_path :=
             Pdf (Some (AcroFormDict (XFA acro) (Some true) fields'))
                 (pages template)]> fs.
Proof.
  intros Ht Ha. unfold fill_pdf_with_pdfrw, is_xfa_pdf. rewrite Ht, Ha.
  case_bool_decide as Hx; [done|].
  destruct (Fields acro) as [|f l] eqn:Hf; [done|].
  destruct (fill_fields _ _ _ _ _ (f :: l)) as [[fields' m]|]; [|done].
  intros [= <- <-]. exists fields'. split; [done|]. split; [|done].
  by destruct (XFA acro).
Qed.

(** X5: the count a fill call returns is the number of nodes of the form
    tree, kids included, whose clean name is mapped to a non-empty column
    that the row has; it is at most the number of nodes. *)
Theorem fill_counts_written_nodes template acro fs' n :
  fs !! template_path = Some template → AcroForm template = Some acro →
  fill_call = (fs', Ok n) →
  n = count_fillable data_row mapping (iter_fields (Fields acro)) ∧
  n ≤ length (iter_fields (Fields acro)).
Proof.
  intros Ht Ha Hcall.
  destruct (fill_call_returns _ _ _ _ Ht Ha Hcall) as (fields' & Hwalk & _).
  apply fill_fields_effect in Hwalk as (_ & -> & _).
  split; [done|]. unfold count_fillable. apply length_filter.
Qed.

(** X6: in the document a fill call writes, the XFA entry is the
    template's, NeedAppearances is true, and the form tree has the
    template's nodes in the same walking order, each with its raw name,
    type, subtype and number of kids unchanged; a node the loop skips
    keeps its value, appearance, default appearance and flags; a button
    the loop writes has its state as value; a text node the loop writes
    has the cell as value, no appearance, no flags and the auto-sized
    default appearance.  The pages list the annotations they listed; an
    annotation that is a node of the form tree is, in the written
    document, that node as the loop left it, and an annotation that is
    no node of the form tree is as it was. *)
Theorem fill_document_effect template acro fs' n :
  fs !! template_path = Some template → AcroForm template = Some acro →
  fill_call = (fs', Ok n) →
  ∃ acro',
    fs' !! output_path = Some (Pdf (Some acro') (pages template)) ∧
    XFA acro' = XFA acro ∧ NeedAppearances acro' = Some true ∧
    length (Fields acro') = length (Fields acro) ∧
    skeleton <$> iter_fields (Fields acro')
    = skeleton <$> iter_fields (Fields acro) ∧
    Forall2 (node_effect encodable data_row mapping rules force_autosize_text)
      (iter_fields (Fields acro)) (iter_fields (Fields acro')) ∧
    ∀ a g, annot_dict template a = Some g →
      ∃ g', annot_dict (Pdf (Some acro') (pages template)) a = Some g' ∧
        match a with
        | FormNode _ =>
            node_effect encodable data_row mapping rules force_autosize_text
              g g'
        | Loose _ => g' = g
        end.
Proof.
  intros Ht Ha Hcall.
  destruct (fill_call_returns _ _ _ _ Ht Ha Hcall)
    as (fields' & Hwalk & _ & _ & ->).
  pose proof (fill_fields_each _ _ _ _ _ _ _ _ Hwalk) as Heach.
  apply fill_fields_effect in Hwalk as (Heff & _ & Hlen).
  eexists. split; [apply lookup_insert_eq|]. cbn [XFA NeedAppearances Fields].
  split; [done|]. split; [done|]. split; [done|]. split; [|split; [done|]].
  - clear -Heff. induction Heff as [|g g' l l' [Hsk _] _ IH]; [done|].
    rewrite !fmap_cons. by f_equal.
  - intros [path|a] g; cbn [annot_dict AcroForm Fields].
    + rewrite Ha. by apply node_at_filled.
    + intros [= <-]. by exists a.
Qed.

(** X7: a fill call changes no file but the one at the output path: every
    other file is as before, the output file is there when the call
    returns a count, and nothing at all has changed when it raises. *)
Theorem fill_writes_one_file (fs' : gmap string pdf) (outcome : except nat) :
  fill_call = (fs', outcome) →
  (∀ p, p ≠ output_path → fs' !! p = fs !! p) ∧
  (∀ n, outcome = Ok n → is_Some (fs' !! output_path)) ∧
  (∀ e, outcome = Raise e → fs' = fs).
Proof.
  destruct (fill_outcome encodable fs template_path output_path data_row
              mapping rules force_autosize_text)
    as [(e & ->)|(doc & n & ->)]; intros [= <- <-].
  - by repeat split.
  - split; [|split; [|done]].
    + intros p Hp. by rewrite lookup_insert_ne.
    + intros _ _. rewrite lookup_insert_eq. by eexists.
Qed.

(** X8: when the loop skips every node of the form tree (no clean name
    is mapped to a non-empty column of the row), a fill call on a
    template with fields returns zero and writes the template's form tree
    as it is, with NeedAppearances set; an empty mapping is such a case. *)
Theorem fill_nothing_to_fill template acro :
  fs !! template_path = Some template → AcroForm template = Some acro →
  XFA acro = None → Fields acro ≠ [] →
  (∀ g, g ∈ iter_fields (Fields acro) → ¬ fillable data_row mapping g) →
  fill_call
  = (<[output_path :=
        Pdf (Some (AcroFormDict (XFA acro) (Some true) (Fields acro)))
            (pages template)]> fs, Ok 0) ∧
  (∀ g, ¬ fillable data_row ∅ g).
Proof.
  intros Ht Ha Hx Hf Hskip. split.
  - unfold fill_pdf_with_pdfrw, is_xfa_pdf. rewrite Ht, Ha, Hx.
    rewrite bool_decide_eq_false_2 by (by intros ?).
    destruct (Fields acro) as [|f l] eqn:Hfields; [done|].
    by rewrite (fill_fields_skips _ _ _ _ _ _ Hskip).
  - intros g [p Hp]. unfold resolve in Hp.
    destruct (clean_field_name (T g)); [|done]. by rewrite lookup_empty in Hp.
Qed.

(** X9: a fill call returns a count exactly when the template can be
    read, has a form root without an XFA entry and with a non-empty
    field list, and every cell it has to write into a text node can be
    encoded; in every other case it raises. *)
Theorem fill_returns_iff :
  (∃ fs' n, fill_call = (fs', Ok n)) ↔
  ∃ template acro,
    fs !! template_path = Some template ∧ AcroForm template = Some acro ∧
    XFA acro = None ∧ Fields acro ≠ [] ∧
    cells_encodable encodable data_row mapping (iter_fields (Fields acro)).
Proof.
  split.
  - intros (fs' & n & Hcall).
    destruct (fs !! template_path) as [template|] eqn:Ht.
    2: { unfold fill_pdf_with_pdfrw in Hcall. by rewrite Ht in Hcall. }
    destruct (AcroForm template) as [acro|] eqn:Ha.
    2: { unfold fill_pdf_with_pdfrw in Hcall. by rewrite Ht, Ha in Hcall. }
    destruct (fill_call_returns _ _ _ _ Ht Ha Hcall)
      as (fields' & Hwalk & Hx & Hf & _).
    exists template, acro. do 4 (split; [done|]).
    apply (fill_fields_returns encodable data_row mapping rules
             force_autosize_text). by eexists _, _.
  - intros (template & acro & Ht & Ha & Hx & Hf & Henc).
    apply (fill_fields_returns encodable data_row mapping rules
             force_autosize_text) in Henc as (fields' & n & Hwalk).
    unfold fill_pdf_with_pdfrw, is_xfa_pdf. rewrite Ht, Ha, Hx.
    rewrite bool_decide_eq_false_2 by (by intros ?).
    destruct (Fields acro) as [|f l] eqn:Hfields; [done|].
    rewrite Hwalk. by eexists _, _.
Qed.

End FillCallEffect.

(** X5 at the example of the specification: both fields are written. *)
Lemma fill_counts_written_nodes_witness :
  2 = count_fillable (example_row "Y") example_mapping
        (iter_fields [example_Name; example_Agree]) ∧
  2 ≤ length (iter_fields [example_Name; example_Agree]).
Proof.
  eapply (fill_counts_written_nodes encode_all example_files "template.pdf"
            "out.pdf" (example_row "Y") example_mapping no_rules true
            example_template
            (AcroFormDict None None [example_Name; example_Agree]));
    [reflexivity | reflexivity | vm_compute; reflexivity].
Defined.

(** X6 at the example template with its fields listed on a page: the
    first annotation of the page reads the written value. *)
Lemma fill_document_effect_witness :
  ∃ acro' g',
    (fill_pdf_with_pdfrw encode_all example_paged_files "template.pdf"
       "out.pdf" (example_row "Y") example_mapping no_rules true).1
    !! "out.pdf"
    = Some (Pdf (Some acro') (pages example_paged)) ∧
    NeedAppearances acro' = Some true ∧
    annot_dict (Pdf (Some acro') (pages example_paged)) (FormNode [0])
    = Some g' ∧
    V g' = Some (PString "Ada Lovelace").
Proof.
  destruct (fill_document_effect encode_all example_paged_files
              "template.pdf" "out.pdf" (example_row "Y") example_mapping
              no_rules true example_paged
              (AcroFormDict None None [example_Name; example_Agree])
              (fill_pdf_with_pdfrw encode_all example_paged_files
                 "template.pdf" "out.pdf" (example_row "Y") example_mapping
                 no_rules true).1
              2 eq_refl eq_refl)
    as (acro' & Hfile & _ & Hneed & _ & _ & _ & Hannot);
    [vm_compute; reflexivity|].
  destruct (Hannot (FormNode [0]) example_Name eq_refl)
    as (g' & Hg' & _ & Hwritten).
  exists acro', g'. split; [exact Hfile|]. split; [exact Hneed|].
  split; [exact Hg'|]. exact (proj1 Hwritten).
Defined.

(** X8 at the example template and a row without columns. *)
Lemma fill_nothing_to_fill_witness :
  fill_pdf_with_pdfrw encode_all example_files "template.pdf" "out.pdf"
    empty_row example_mapping no_rules true
  = (<["out.pdf" :=
        Pdf (Some (AcroFormDict None (Some true) [example_Name; example_Agree]))
            []]> example_files, Ok 0).
Proof.
  refine (proj1 (fill_nothing_to_fill encode_all example_files "template.pdf"
                   "out.pdf" empty_row example_mapping no_rules true
                   example_template
                   (AcroFormDict None None [example_Name; example_Agree])
                   _ _ _ _ _));
    [reflexivity | reflexivity | reflexivity | discriminate |].
  intros g Hg. apply list_elem_of_In in Hg.
  destruct Hg as [<-|[<-|[]]]; vm_compute; by intros [? ?].
Defined.

(** X7 at the example of the specification: the template is untouched. *)
Lemma fill_writes_one_file_witness :
  (fill_pdf_with_pdfrw encode_all example_files "template.pdf" "out.pdf"
     (example_row "Y") example_mapping no_rules true).1 !! "template.pdf"
  = example_files !! "template.pdf".
Proof.
  refine (proj1 (fill_writes_one_file encode_all example_files "template.pdf"
                   "out.pdf" (example_row "Y") example_mapping no_rules true
                   _ (fill_pdf_with_pdfrw encode_all example_files
                        "template.pdf" "out.pdf" (example_row "Y")
                        example_mapping no_rules true).2 _)
            "template.pdf" _); [|discriminate].
  by destruct (fill_pdf_with_pdfrw _ _ _ _ _ _ _ _).
Defined.

(** ** The auto-size rewrite applied again *)

Lemma drop_while_stop p l w u :
  p w = false →
  Re.drop_while p (l ++ w :: u) = Re.drop_while p l ++ w :: u.
Proof.
  intros Hw. induction l as [|c l IH]; simpl; [by rewrite Hw|].
  by destruct (p c).
Qed.

Lemma space_not_minus w : Py.isspace w = true → w ≠ "-"%char.
Proof. by intros H ->. Qed.

Lemma space_not_dot w : Py.isspace w = true → w ≠ "."%char.
Proof. by intros H ->. Qed.

(** What [number] does with a text depends on the text up to its first
    whitespace character only. *)
Lemma number_local p w :
  Py.isspace w = true →
  ∃ o : option (list ascii),
    ∀ u, Re.number (p ++ w :: u) = (λ p', p' ++ w :: u) <$> o.
Proof.
  intros Hw.
  assert (Hwd : Re.isdigit w = false) by by apply isdigit_not_space.
  assert (Hmain : ∀ p1, ∃ o : option (list ascii), ∀ u,
    match p1 ++ w :: u with
    | d :: _ =>
        if Re.isdigit d then
          let s2 := Re.drop_while Re.isdigit (p1 ++ w :: u) in
          Some match s2 with
               | "."%char :: d' :: r =>
                   if Re.isdigit d' then Re.drop_while Re.isdigit r else s2
               | _ => s2
               end
        else None
    | [] => None
    end = (λ p', p' ++ w :: u) <$> o).
  { intros p1. destruct p1 as [|d p1'].
    { exists None. intros u. simpl. by rewrite Hwd. }
    destruct (Re.isdigit d) eqn:Hd.
    2: { exists None. intros u. simpl. by rewrite Hd. }
    set (p2 := Re.drop_while Re.isdigit (d :: p1')).
    assert (Hs2 : ∀ u, Re.drop_while Re.isdigit (d :: p1' ++ w :: u)
                       = p2 ++ w :: u)
      by (intros u; by apply (drop_while_stop _ (d :: p1'))).
    destruct p2 as [|c p3] eqn:Hp2.
    { exists (Some []). intros u. cbn [app]. rewrite Hd. cbv zeta.
      rewrite (Hs2 u). simpl.
      by destruct w as [[] [] [] [] [] [] [] []]. }
    destruct (decide (c = "."%char)) as [->|Hc].
    2: { exists (Some (c :: p3)). intros u. cbn [app]. rewrite Hd. cbv zeta.
         rewrite (Hs2 u). simpl.
         by destruct c as [[] [] [] [] [] [] [] []]. }
    destruct p3 as [|d' p4].
    { exists (Some ["."%char]). intros u. cbn [app]. rewrite Hd. cbv zeta.
      rewrite (Hs2 u). simpl. by rewrite Hwd. }
    destruct (Re.isdigit d') eqn:Hd'.
    - exists (Some (Re.drop_while Re.isdigit p4)). intros u.
      cbn [app]. rewrite Hd. cbv zeta. rewrite (Hs2 u). simpl. rewrite Hd'.
      f_equal. by apply drop_while_stop.
    - exists (Some ("."%char :: d' :: p4)). intros u.
      cbn [app]. rewrite Hd. cbv zeta. rewrite (Hs2 u). simpl. by rewrite Hd'. }
  unfold Re.number.
  destruct p as [|c p'].
  - destruct (Hmain []) as [o Ho]. exists o. intros u. rewrite <- Ho. simpl.
    by destruct w as [[] [] [] [] [] [] [] []].
  - destruct (decide (c = "-"%char)) as [->|Hc].
    + destruct (Hmain p') as [o Ho].
      exists o. intros u. cbn [app]. by rewrite <- Ho.
    + destruct (Hmain (c :: p')) as [o Ho]. exists o. intros u.
      rewrite <- Ho. cbn [app].
      by destruct c as [[] [] [] [] [] [] [] []].
Qed.

Lemma drop_while_head p l c r :
  Re.drop_while p l = c :: r → p c = false.
Proof.
  induction l as [|a l IH]; simpl; [done|].
  destruct (p a) eqn:Ha; [done|]. by intros [= <- _].
Qed.

Lemma drop_while_keep p l c r u :
  Re.drop_while p l = c :: r → Re.drop_while p (l ++ u) = c :: r ++ u.
Proof.
  induction l as [|a l IH]; simpl; [done|].
  destruct (p a); [done|]. by intros [= <- <-].
Qed.

Lemma drop_while_all p l u :
  Re.drop_while p l = [] → Re.drop_while p (l ++ u) = Re.drop_while p u.
Proof.
  induction l as [|a l IH]; simpl; [done|]. by destruct (p a).
Qed.

(** A character that is neither whitespace nor [T] after the whitespace
    [w]: whether [\s+Tf\b] matches at the head does not depend on what
    that character and the text after it are. *)
Lemma spaces_Tf_local p w x u x' u' :
  Py.isspace w = true →
  Py.isspace x = false → x ≠ "T"%char →
  Py.isspace x' = false → x' ≠ "T"%char →
  Re.spaces_Tf (p ++ w :: x :: u) = None →
  Re.spaces_Tf (p ++ w :: x' :: u') = None.
Proof.
  intros Hw Hx HxT Hx' HxT'.
  assert (Hend : ∀ y v, Py.isspace y = false → y ≠ "T"%char →
            match Re.drop_while Py.isspace (w :: y :: v) with
            | "T"%char :: "f"%char :: rest =>
                if Re.at_word_end rest then Some rest else None
            | _ => None
            end = None).
  { intros y v Hy HyT. simpl. rewrite Hw, Hy.
    by destruct y as [[] [] [] [] [] [] [] []]. }
  unfold Re.spaces_Tf. destruct p as [|a p]; cbn [app].
  { rewrite Hw. intros _. specialize (Hend x' u' Hx' HxT').
    simpl in Hend. by rewrite Hw in Hend. }
  destruct (Py.isspace a); [|done].
  destruct (Re.drop_while Py.isspace p) as [|b q] eqn:Hp.
  { rewrite !(drop_while_all _ p) by done. intros _. by apply Hend. }
  rewrite !(drop_while_keep _ p b q) by done.
  destruct (decide (b = "T"%char)) as [->|Hb].
  2: { intros _. by destruct b as [[] [] [] [] [] [] [] []]. }
  destruct q as [|f q]; cbn [app].
  { intros _. by destruct w as [[] [] [] [] [] [] [] []]. }
  destruct (decide (f = "f"%char)) as [->|Hf].
  2: { intros _. by destruct f as [[] [] [] [] [] [] [] []]. }
  destruct q as [|e q]; cbn [app]; simpl.
  - by destruct w as [[] [] [] [] [] [] [] []].
  - by destruct (Re.isword e).
Qed.

Lemma size_Tf_local p w x u x' u' :
  Py.isspace w = true →
  Py.isspace x = false → x ≠ "T"%char →
  Py.isspace x' = false → x' ≠ "T"%char →
  Re.size_Tf (p ++ w :: x :: u) = None →
  Re.size_Tf (p ++ w :: x' :: u') = None.
Proof.
  intros Hw Hx HxT Hx' HxT'. unfold Re.size_Tf.
  destruct (number_local p w Hw) as [o Ho]. rewrite !Ho.
  destruct o as [p'|]; simpl; [|done]. by apply spaces_Tf_local.
Qed.

(** A number starts with a sign or a digit. *)
Lemma number_head num :
  Pattern.number num →
  ∃ x r, num = x :: r ∧ Py.isspace x = false ∧ x ≠ "T"%char.
Proof.
  intros (sign & int & frac & -> & Hsign & [Hne HF] & _).
  destruct Hsign as [-> | ->].
  - destruct int as [|d int]; [done|]. inversion HF as [|?? Hd _]; subst.
    exists d, (int ++ frac). split; [done|].
    by destruct d as [[] [] [] [] [] [] [] []].
  - exists "-"%char, (int ++ frac). by repeat split.
Qed.

Lemma number_zero : Pattern.number ["0"%char].
Proof.
  exists [], ["0"%char], []. split; [done|]. split; [by left|].
  split; [|by left]. split; [done|]. by repeat constructor.
Qed.

Lemma spaces_one : Pattern.spaces [" "%char].
Proof. split; [done|]. by repeat constructor. Qed.

(** The text [re.sub] returns has its first match where the old one
    started, and the match there is the replacement itself. *)
Lemma sub_first_fixed s s' :
  Re.sub_first s = Some s' → Re.sub_first s' = Some s'.
Proof.
  revert s'. induction s as [|c r IH]; intros s'; [done|].
  rewrite sub_first_cons.
  destruct (if Py.isspace c then Re.size_Tf r else None) as [rest|] eqn:Hhead.
  - intros [= <-]. destruct (Py.isspace c) eqn:Hc; [|done].
    apply size_Tf_sound in Hhead as (num & sep & _ & _ & _ & Hend).
    rewrite sub_first_cons, Hc.
    by rewrite (size_Tf_complete _ _ _ number_zero spaces_one Hend
                : Re.size_Tf ("0" :: " " :: "T" :: "f" :: rest)%char
                  = Some rest).
  - destruct (Re.sub_first r) as [r'|] eqn:Hr; [|done].
    intros [= <-]. rewrite sub_first_cons, (IH r' eq_refl).
    destruct (Py.isspace c) eqn:Hc; [|done].
    apply sub_first_Some in Hr
      as (pre & w & num & sep & post & (-> & Hw & Hnum & _) & _ & ->).
    destruct (number_head _ Hnum) as (x & nr & -> & Hx & HxT).
    cbn [app] in Hhead.
    by rewrite (size_Tf_local pre w x _ "0"%char _ Hw Hx HxT eq_refl
                  ltac:(done) Hhead
                : Re.size_Tf (pre ++ w :: Re.zero_Tf ++ post) = None).
Qed.

Lemma list_ascii_of_string_of_list l :
  list_ascii_of_string (string_of_list_ascii l) = l.
Proof. induction l as [|c l IH]; simpl; by rewrite ?IH. Qed.

Lemma string_of_list_of_string s :
  string_of_list_ascii (list_ascii_of_string s) = s.
Proof. induction s as [|c s IH]; simpl; by rewrite ?IH. Qed.

Lemma sub_sub s : Re.sub (Re.sub s) = Re.sub s.
Proof.
  unfold Re.sub. cbv zeta. rewrite list_ascii_of_string_of_list.
  destruct (Re.sub_first (list_ascii_of_string s)) as [l'|] eqn:Hs; simpl.
  - by rewrite (sub_first_fixed _ _ Hs).
  - by rewrite Hs.
Qed.

(** X10.  Rewriting a default appearance to auto-size is idempotent:
    [re.sub] with [count=1] applied to its own result returns it
    unchanged, because the replacement [0 Tf] is itself the first match
    of the new text; so a second call of [_set_da_autosize] on a field
    leaves it as the first call did, whatever [PdfString.encode]
    accepts. *)
Theorem da_autosize_idempotent (encodable : string → bool) (f : field) :
  (∀ da, Re.sub (Re.sub da) = Re.sub da) ∧
  _set_da_autosize encodable (_set_da_autosize encodable f)
  = _set_da_autosize encodable f.
Proof.
  split; [apply sub_sub|].
  destruct (_set_da_autosize_cases encodable f)
    as [H | (da & Hda & Henc & ->)]; [by rewrite !H|].
  unfold _set_da_autosize. destruct f; simpl.
  rewrite sub_sub. by rewrite bool_decide_eq_false_2 by (by intros ?; auto).
Qed.
(** ** [safe_filename] *)

Lemma str_forall_impl (p q : ascii → bool) s :
  (∀ c, p c = true → q c = true) →
  str_forall p s = true → str_forall q s = true.
Proof.
  intros Hpq. induction s as [|c s IH]; simpl; [done|].
  intros [Hc Hs]%andb_true_iff. by rewrite (Hpq c Hc), (IH Hs).
Qed.

Lemma str_forall_lstrip p s :
  str_forall p s = true → str_forall p (Py.lstrip s) = true.
Proof.
  induction s as [|c s IH]; simpl; [done|].
  intros [Hc Hs]%andb_true_iff.
  destruct (Py.isspace c); [by apply IH|]. simpl. by rewrite Hc, Hs.
Qed.

Lemma str_forall_rstrip p s :
  str_forall p s = true → str_forall p (Py.rstrip s) = true.
Proof.
  induction s as [|c s IH]; [done|].
  intros [Hc Hs]%andb_true_iff.
  destruct (rstrip_cases c s) as [-> | ->]; [done|].
  simpl. by rewrite Hc, (IH Hs).
Qed.

Lemma str_forall_strip p s :
  str_forall p s = true → str_forall p (Py.strip s) = true.
Proof. intros H. by apply str_forall_rstrip, str_forall_lstrip. Qed.

Lemma str_forall_take p n s :
  str_forall p s = true → str_forall p (str_take n s) = true.
Proof.
  revert n. induction s as [|c s IH]; intros [|n]; simpl; try done.
  intros [Hc Hs]%andb_true_iff. by rewrite Hc, (IH n Hs).
Qed.

(** The characters of [re.sub(p+, rep, s)] are the replacement and the
    characters of [s] outside the class. *)
Lemma str_forall_sub_runs (p q : ascii → bool) rep s :
  q rep = true →
  str_forall (λ c, p c || q c) s = true →
  str_forall q (sub_runs p rep s) = true.
Proof.
  intros Hrep. induction s as [|c s IH]; [done|].
  cbn [str_forall]. intros [Hc Hs]%andb_true_iff. specialize (IH Hs).
  cbn [sub_runs]. destruct (p c) eqn:Hpc.
  - destruct s as [|c' s']; [simpl; by rewrite Hrep|].
    destruct (p c'); [done|]. cbn [str_forall]. by rewrite Hrep, IH.
  - cbn [str_forall]. simpl in Hc. by rewrite Hc, IH.
Qed.

Lemma length_str_take n s : String.length (str_take n s) ≤ n.
Proof.
  revert s. induction n as [|n IH]; intros [|c s]; simpl; try lia.
  specialize (IH s). lia.
Qed.

Lemma length_rstrip s : String.length (Py.rstrip s) ≤ String.length s.
Proof.
  induction s as [|c s IH]; [done|].
  destruct (rstrip_cases c s) as [-> | ->]; simpl; lia.
Qed.

Lemma first_char_take n s c :
  first_char (str_take n s) = Some c → first_char s = Some c.
Proof. by destruct n, s. Qed.

Lemma name_char_row : str_forall name_char "row" = true.
Proof. done. Qed.

Lemma safe_filename_name_chars s max_len :
  str_forall name_char (safe_filename s max_len) = true.
Proof.
  unfold safe_filename. cbv zeta.
  destruct (Py.truthy _); [|done].
  apply str_forall_rstrip, str_forall_take, str_forall_strip.
  apply str_forall_sub_runs; [done|].
  apply (str_forall_impl name_char);
    [intros c Hc; rewrite Hc; apply orb_true_r|].
  apply str_forall_sub_runs; [done|].
  clear. induction (Py.strip s) as [|c t IH]; simpl; [done|].
  rewrite IH. by destruct (name_char c).
Qed.

(** X11.  The file-name base [safe_filename] makes of a text of code
    points below 128: it is never empty; each of its characters is a
    letter, a digit, an underscore, a hyphen, a dot or a space, so none
    is a slash; it is not longer than [max_len] unless it is the
    fallback [row]; and it neither starts nor ends with whitespace.
    ([max_len] is 70 wherever the program calls it.) *)
Theorem safe_filename_safe (s : string) (max_len : nat) :
  ascii_only s = true → 0 < max_len →
  safe_filename s max_len ≠ "" ∧
  str_forall name_char (safe_filename s max_len) = true ∧
  str_forall (λ c, negb (bool_decide (c = "/"%char)))
    (safe_filename s max_len) = true ∧
  (String.length (safe_filename s max_len) ≤ max_len
   ∨ safe_filename s max_len = "row") ∧
  edges_not_space (safe_filename s max_len).
Proof.
  intros _ Hlen.
  pose proof (safe_filename_name_chars s max_len) as Hchars.
  split; [|split; [done|split; [|split]]].
  - unfold safe_filename. cbv zeta.
    match goal with |- context [Py.strip (sub_runs Py.isspace ?c ?t)] =>
      pose proof (strip_edges (sub_runs Py.isspace c t)) as [Hfirst _];
      destruct (Py.strip (sub_runs Py.isspace c t)) as [|d u]
    end; [done|].
    destruct max_len as [|n]; [lia|]. cbn [Py.truthy str_take].
    specialize (Hfirst d eq_refl).
    destruct (rstrip_cases d (str_take n u)) as [H|H]; [|by rewrite H].
    simpl in H. rewrite Hfirst in H. by destruct (Py.rstrip (str_take n u)).
  - eapply str_forall_impl; [|exact Hchars].
    intros c Hc. apply negb_true_iff, bool_decide_eq_false. by intros ->.
  - unfold safe_filename. cbv zeta.
    destruct (Py.truthy _); [left|by right].
    etrans; [apply length_rstrip | apply length_str_take].
  - unfold safe_filename. cbv zeta.
    match goal with |- context [Py.strip (sub_runs Py.isspace ?c ?t)] =>
      pose proof (strip_edges (sub_runs Py.isspace c t)) as [Hfirst _];
      destruct (Py.truthy (Py.strip (sub_runs Py.isspace c t)))
    end; [|by split; [intros c [= <-] | intros c [= <-]]].
    split; intros c Hc.
    + by apply rstrip_first, first_char_take, Hfirst in Hc.
    + by eapply rstrip_last.
Qed.

(** X11 at a text with a path in it. *)
Lemma safe_filename_safe_witness :
  safe_filename " ../a b	c.pdf " 70 ≠ "" ∧
  str_forall (λ c, negb (bool_decide (c = "/"%char)))
    (safe_filename " ../a b	c.pdf " 70) = true.
Proof.
  destruct (safe_filename_safe " ../a b	c.pdf " 70 eq_refl ltac:(lia))
    as (Hne & _ & Hslash & _).
  split; [exact Hne | exact Hslash].
Defined.
(** ** The file names of the batch *)

Lemma str_length_app s t :
  String.length (s +:+ t) = String.length s + String.length t.
Proof. induction s as [|c s IH]; simpl; [done | by rewrite IH]. Qed.

Lemma str_app_assoc s t u : (s +:+ t) +:+ u = s +:+ t +:+ u.
Proof.
  induction s as [|c s IH]; [done|]. rewrite !append_String. by rewrite IH.
Qed.

Lemma str_app_inj_l s1 s2 t : s1 +:+ t = s2 +:+ t → s1 = s2.
Proof.
  revert s2. induction s1 as [|c s1 IH]; intros [|d s2] H.
  - done.
  - apply (f_equal String.length) in H.
    rewrite !str_length_app in H. simpl in H. lia.
  - apply (f_equal String.length) in H.
    rewrite !str_length_app in H. simpl in H. lia.
  - rewrite !append_String in H. injection H as -> H. f_equal. by apply IH.
Qed.

Lemma suffixed_inj base j k : suffixed base j = suffixed base k → j = k.
Proof.
  unfold suffixed. intros H.
  apply (inj (String.app base)), (inj (String.app "_")) in H.
  apply str_app_inj_l in H. by apply (inj pretty) in H.
Qed.

Lemma last_char_app s t : t ≠ "" → last_char (s +:+ t) = last_char t.
Proof.
  intros Ht. induction s as [|c s IH]; [done|].
  change (String c s +:+ t) with (String c (s +:+ t)). cbn [last_char].
  rewrite IH. destruct (s +:+ t) eqn:Hst; [|done].
  apply (f_equal String.length) in Hst. rewrite str_length_app in Hst.
  destruct t; [done | simpl in Hst; lia].
Qed.

(** The [while] loop of the naming ends: among the [fuel] names it may
    test there is one not taken when fewer than [fuel] names are taken,
    and it ends at the first such name. *)
Lemma first_unused_spec base used fuel k (U : gset string) :
  (∀ j, k ≤ j → suffixed base j ∈ used → suffixed base j ∈ U) →
  size U < fuel →
  ∃ k', first_unused fuel k base used = Some k' ∧ k ≤ k' ∧
        (suffixed base k' ∉ used) ∧
        ∀ j, k ≤ j → j < k' → suffixed base j ∈ used.
Proof.
  revert k U. induction fuel as [|fuel IH]; intros k U HU Hsize; [lia|].
  cbn [first_unused]. case_bool_decide as Hk.
  2: { exists k. split; [done|]. split; [done|]. split; [done|]. lia. }
  destruct (IH (S k) (U ∖ {[suffixed base k]})) as (k' & Hk' & Hle & Hfree & Hall).
  - intros j Hj Hin. apply elem_of_difference. split; [apply HU; [lia|done]|].
    intros ->%elem_of_singleton%suffixed_inj. lia.
  - rewrite size_difference by (apply singleton_subseteq_l, HU; [lia|done]).
    rewrite size_singleton.
    assert (size U ≠ 0); [|lia].
    intros H0%size_empty_iff. specialize (HU k ltac:(lia) Hk).
    rewrite H0 in HU. by apply elem_of_empty in HU.
  - exists k'. split; [done|]. split; [lia|]. split; [done|].
    intros j Hj1 Hj2. destruct (decide (j = k)) as [->|]; [done|].
    apply Hall; lia.
Qed.

Lemma unique_name_spec base used :
  ∃ nm, unique_name base used = Some nm ∧ (nm ∉ used) ∧
    (base +:+ ".pdf" ∉ used → nm = base +:+ ".pdf") ∧
    (base +:+ ".pdf" ∈ used →
     ∃ k, 2 ≤ k ∧ nm = suffixed base k ∧
          ∀ j, 2 ≤ j → j < k → suffixed base j ∈ used).
Proof.
  unfold unique_name. cbv zeta. case_bool_decide as Hin.
  - destruct (first_unused_spec base used (S (size used)) 2 used)
      as (k & -> & Hk & Hfree & Hall); [done | lia |].
    exists (suffixed base k). split; [done|]. split; [done|].
    split; [done|]. intros _. by exists k.
  - exists (base +:+ ".pdf"). by repeat split.
Qed.

Lemma name_for_fresh base used :
  (name_for base used ∉ used) ∧
  ∃ stem, name_for base used = stem +:+ ".pdf".
Proof.
  unfold name_for.
  destruct (unique_name_spec base used)
    as (nm & -> & Hfree & Hplain & Hsuff). simpl. split; [done|].
  destruct (decide (base +:+ ".pdf" ∈ used)) as [Hin|Hin].
  - destruct (Hsuff Hin) as (k & _ & -> & _).
    exists (base +:+ "_" +:+ pretty k).
    unfold suffixed. by rewrite !str_app_assoc.
  - rewrite (Hplain Hin). by eexists.
Qed.

Lemma str_forall_app p s t :
  str_forall p (s +:+ t) = str_forall p s && str_forall p t.
Proof.
  induction s as [|c s IH]; [done|].
  rewrite append_String. simpl. by rewrite IH, andb_assoc.
Qed.

Lemma pretty_N_char_digit y : Re.isdigit (pretty_N_char y) = true.
Proof. unfold pretty_N_char. by repeat case_match. Qed.

Lemma pretty_N_go_digits x s :
  str_forall Re.isdigit s = true →
  str_forall Re.isdigit (pretty_N_go x s) = true.
Proof.
  revert s. induction (N.lt_wf_0 x) as [x _ IH]. intros s Hs.
  destruct (decide (0 < x)%N) as [Hx|Hx].
  - rewrite pretty_N_go_step by done. apply IH; [by apply N.div_lt|].
    cbn [str_forall]. by rewrite pretty_N_char_digit, Hs.
  - by replace x with 0%N by lia.
Qed.

(** The decimal numeral of a number is made of digits. *)
Lemma pretty_nat_digits (n : nat) : str_forall Re.isdigit (pretty n) = true.
Proof.
  unfold pretty, pretty_nat, pretty, pretty_N.
  destruct (decide _); [done|]. by apply pretty_N_go_digits.
Qed.

(** A class of characters that has the digits and the characters of
    [_] and [.pdf] holds every character of a name whose base it
    holds. *)
Lemma name_for_chars (p : ascii → bool) base used :
  (∀ c, Re.isdigit c = true → p c = true) →
  str_forall p "_.pdf" = true →
  str_forall p base = true →
  str_forall p (name_for base used) = true.
Proof.
  intros Hdigit Hfix Hbase.
  pose proof (λ k, str_forall_impl _ _ _ Hdigit (pretty_nat_digits k)) as Hk.
  assert (Hpdf : str_forall p ".pdf" = true).
  { simpl in Hfix |- *. by apply andb_true_iff in Hfix as [_ ->]. }
  assert (Hund : str_forall p "_" = true).
  { simpl in Hfix |- *. apply andb_true_iff in Hfix as [-> _]. done. }
  unfold name_for, unique_name. cbv zeta. case_bool_decide.
  - destruct (first_unused _ _ _ _) as [k|]; simpl.
    + unfold suffixed. by rewrite !str_forall_app, Hbase, Hund, Hk, Hpdf.
    + by rewrite str_forall_app, Hbase, Hpdf.
  - simpl. by rewrite str_forall_app, Hbase, Hpdf.
Qed.

(** X12.  The name a row gets: the test loop over [base_2.pdf],
    [base_3.pdf], ... ends, whatever names are taken; the name is not
    one of the names taken; it is [base.pdf] when that is free, and
    otherwise [base_k.pdf] for the least [k] from 2 on whose name is
    free. *)
Theorem unique_name_fresh (base : string) (used : gset string) :
  ∃ nm, unique_name base used = Some nm ∧ (nm ∉ used) ∧
    (base +:+ ".pdf" ∉ used → nm = base +:+ ".pdf") ∧
    (base +:+ ".pdf" ∈ used →
     ∃ k, 2 ≤ k ∧ nm = suffixed base k ∧
          ∀ j, 2 ≤ j → j < k → suffixed base j ∈ used).
Proof. apply unique_name_spec. Qed.

Section BatchFiles.

Variable encodable : string → bool.
Variable pick : nat → gmap string string → gset string → string.
Variables (pdf_path : string) (mapping : gmap string string).
Variable rules : gmap string rule.

Local Abbreviation body := (batch_body encodable pick pdf_path mapping rules).
Local Abbreviation loop := (batch_loop encodable pick pdf_path mapping rules).

(** The two ways one turn of the loop ends. *)
Lemma batch_body_cases st i r :
  let fname := pick (i + 1) r (used_names st) in
  (∃ msg,
     fill_pdf_with_pdfrw encodable (files st) pdf_path fname r mapping rules
       true = (files st, Raise msg) ∧
     body st i r
     = BatchState (files st) ({[fname]} ∪ used_names st) (out_files st)
         (report_rows st ++ [ReportRow (i + 1) fname "ERROR" 0 msg])) ∨
  (∃ doc n,
     fill_pdf_with_pdfrw encodable (files st) pdf_path fname r mapping rules
       true = (<[fname := doc]> (files st), Ok n) ∧
     body st i r
     = BatchState (<[fname := doc]> (files st)) ({[fname]} ∪ used_names st)
         (out_files st ++ [(fname, doc)])
         (report_rows st ++
          [ReportRow (i + 1) fname
             (if (0 <? n)%nat then "OK" else "ZERO_FILLED") n ""])).
Proof.
  intros fname. unfold batch_body, row_fill. fold fname.
  destruct (fill_outcome encodable (files st) pdf_path fname r mapping rules
              true) as [(e & He)|(doc & n & Hd)].
  - left. exists e. by rewrite He.
  - right. exists doc, n. rewrite Hd. by rewrite lookup_insert_eq.
Qed.

Hypothesis pick_fresh : ∀ n r used, pick n r used ∉ used.

Lemma names_inv_body st i r : names_inv st → names_inv (body st i r).
Proof.
  intros (Hused & Hnd & Hout & Hfiles).
  pose proof (pick_fresh (i + 1) r (used_names st)) as Hfresh.
  assert (Hnew : pick (i + 1) r (used_names st) ∉ file <$> report_rows st).
  { assert (Hiff : ∀ x, x ∈ used_names st ↔ x ∈ file <$> report_rows st).
    { intros x. rewrite <- (elem_of_list_to_set (C:=gset string)).
      by rewrite <- Hused. }
    by rewrite <- Hiff. }
  destruct (batch_body_cases st i r) as [(msg & _ & ->)|(doc & n & _ & ->)];
    unfold names_inv; cbn [used_names report_rows out_files files].
  - rewrite fmap_app, filter_app, list_to_set_app_L. cbn [fmap list_fmap].
    split; [rewrite Hused; set_solver|]. split.
    { apply NoDup_app. split; [done|]. split; [|apply NoDup_singleton].
      intros x Hx ->%list_elem_of_singleton. done. }
    split; [|done].
    rewrite filter_cons_False by (by intros H; apply H).
    by rewrite filter_nil, app_nil_r.
  - rewrite !fmap_app, filter_app, list_to_set_app_L. cbn [fmap list_fmap].
    split; [rewrite Hused; set_solver|]. split.
    { apply NoDup_app. split; [done|]. split; [|apply NoDup_singleton].
      intros x Hx ->%list_elem_of_singleton. done. }
    split.
    { rewrite filter_cons_True by (by destruct (0 <? n)%nat).
      rewrite filter_nil, fmap_app. by rewrite Hout. }
    apply Forall_app. split.
    + apply Forall_forall. intros [nm data] Hin.
      pose proof (proj1 (Forall_forall _ _) Hfiles _ Hin) as Hlk.
      simpl in *. rewrite lookup_insert_ne; [done|]. intros <-. apply Hnew.
      assert (Hnm : pick (i + 1) r (used_names st) ∈ (out_files st).*1)
        by (apply list_elem_of_fmap; by eexists (_, data)).
      rewrite Hout in Hnm.
      apply list_elem_of_fmap in Hnm as (e & -> & [_ He]%list_elem_of_filter).
      apply list_elem_of_fmap. by exists e.
    + constructor; [|done]. simpl. by rewrite lookup_insert_eq.
Qed.

Lemma names_inv_loop rows i st : names_inv st → names_inv (loop i rows st).
Proof.
  revert i st. induction rows as [|r rows IH]; intros i st Hst; [done|].
  cbn [batch_loop]. by apply IH, names_inv_body.
Qed.

(** Every name in the report is one [pick] has returned. *)
Lemma report_names_picked (P : string → Prop) rows i st :
  (∀ n r used, P (pick n r used)) →
  Forall (λ e, P (file e)) (report_rows st) →
  Forall (λ e, P (file e)) (report_rows (loop i rows st)).
Proof.
  intros HP. revert i st. induction rows as [|r rows IH]; intros i st Hst;
    [done|].
  cbn [batch_loop]. apply IH.
  destruct (batch_body_cases st i r) as [(msg & _ & ->)|(doc & n & _ & ->)];
    cbn [report_rows]; (apply Forall_app; split; [done|]);
    constructor; [apply HP | done | apply HP | done].
Qed.

End BatchFiles.

Lemma names_inv_init fs : names_inv (batch_init fs).
Proof.
  unfold names_inv, batch_init; simpl.
  split; [done|]. split; [apply NoDup_nil_2|]. by split.
Qed.

Lemma pdf_name_not (stem other : string) :
  last_char other ≠ Some "f"%char → stem +:+ ".pdf" ≠ other.
Proof.
  intros Hother Heq. apply Hother. rewrite <- Heq.
  by rewrite last_char_app.
Qed.

(** X13.  The names of a batch, for every table, template and mapping
    and whatever base name each row has: no two rows of the report have
    the same file name; every name ends in [.pdf], so none is
    [_REPORT.csv] or [mapping_rules.json], the two entries the handler
    adds to the archive; the files collected for the archive are those
    of the rows whose status is not [ERROR], in row order and without a
    repeated name; each collected document is still the file of its
    name when the loop ends, no later row having written over it; and
    when no base name has a slash in it, no file name has one. *)
Theorem batch_names_distinct (encodable : string → bool)
    (base_of : nat → gmap string string → string) (pdf_path : string)
    (mapping : gmap string string) (rules : gmap string rule)
    (fs : gmap string pdf) (rows : list (gmap string string)) :
  NoDup (file <$> report_rows
     (batch_loop encodable (λ n r used, name_for (base_of n r) used) pdf_path
        mapping rules 0 rows (batch_init fs))) ∧
  Forall (λ e, (∃ stem, file e = stem +:+ ".pdf") ∧
               file e ≠ "_REPORT.csv" ∧ file e ≠ "mapping_rules.json")
    (report_rows
       (batch_loop encodable (λ n r used, name_for (base_of n r) used)
          pdf_path mapping rules 0 rows (batch_init fs))) ∧
  (out_files
     (batch_loop encodable (λ n r used, name_for (base_of n r) used) pdf_path
        mapping rules 0 rows (batch_init fs))).*1
  = file <$> filter (λ e, status e ≠ "ERROR")
      (report_rows
         (batch_loop encodable (λ n r used, name_for (base_of n r) used)
            pdf_path mapping rules 0 rows (batch_init fs))) ∧
  NoDup (out_files
     (batch_loop encodable (λ n r used, name_for (base_of n r) used) pdf_path
        mapping rules 0 rows (batch_init fs))).*1 ∧
  Forall (λ x, files
     (batch_loop encodable (λ n r used, name_for (base_of n r) used) pdf_path
        mapping rules 0 rows (batch_init fs)) !! x.1 = Some x.2)
    (out_files
       (batch_loop encodable (λ n r used, name_for (base_of n r) used)
          pdf_path mapping rules 0 rows (batch_init fs))) ∧
  ((∀ n r, str_forall (λ c, negb (bool_decide (c = "/"%char))) (base_of n r)
           = true) →
   Forall (λ e, str_forall (λ c, negb (bool_decide (c = "/"%char))) (file e)
                = true)
     (report_rows
        (batch_loop encodable (λ n r used, name_for (base_of n r) used)
           pdf_path mapping rules 0 rows (batch_init fs)))).
Proof.
  destruct (names_inv_loop encodable (λ n r used, name_for (base_of n r) used)
              pdf_path mapping rules
              (λ n r used, proj1 (name_for_fresh (base_of n r) used))
              rows 0 (batch_init fs) (names_inv_init fs))
    as (_ & Hnd & Hout & Hfiles).
  split; [done|].
  split; [|split; [done|split; [|split; [done|]]]].
  - apply (report_names_picked encodable
             (λ n r used, name_for (base_of n r) used) pdf_path mapping rules
             (λ nm, (∃ stem, nm = stem +:+ ".pdf") ∧
                    nm ≠ "_REPORT.csv" ∧ nm ≠ "mapping_rules.json"));
      [|by constructor].
    intros n r used.
    destruct (name_for_fresh (base_of n r) used) as (_ & stem & ->).
    split; [by exists stem|]. split; by apply pdf_name_not.
  - rewrite Hout. eapply sublist_NoDup; [exact Hnd|].
    apply fmap_sublist, sublist_filter.
  - intros Hbase.
    apply (report_names_picked encodable
             (λ n r used, name_for (base_of n r) used) pdf_path mapping rules
             (λ nm, str_forall (λ c, negb (bool_decide (c = "/"%char))) nm
                    = true)); [|by constructor].
    intros n r used. apply name_for_chars; [|done|apply Hbase].
    intros c Hc. apply negb_true_iff, bool_decide_eq_false. by intros ->.
Qed.

(** ** The rows of a batch and the single fill call *)

Section BatchRows.

Variable encodable : string → bool.
Variable pick : nat → gmap string string → gset string → string.
Variables (pdf_path : string) (mapping : gmap string string).
Variable rules : gmap string rule.
Variable fs : gmap string pdf.

Local Abbreviation fill := (fill_pdf_with_pdfrw encodable).
Local Abbreviation body := (batch_body encodable pick pdf_path mapping rules).
Local Abbreviation loop := (batch_loop encodable pick pdf_path mapping rules).

(** A fill call reads the template and nothing else. *)
Lemma fill_template_only fs1 fs2 out r :
  fs1 !! pdf_path = fs2 !! pdf_path →
  (∃ e, fill fs1 pdf_path out r mapping rules true = (fs1, Raise e) ∧
        fill fs2 pdf_path out r mapping rules true = (fs2, Raise e)) ∨
  (∃ doc n,
     fill fs1 pdf_path out r mapping rules true = (<[out := doc]> fs1, Ok n) ∧
     fill fs2 pdf_path out r mapping rules true = (<[out := doc]> fs2, Ok n)).
Proof.
  intros H. unfold fill_pdf_with_pdfrw. rewrite H.
  destruct (fs2 !! pdf_path) as [template|]; [|left; by eexists].
  destruct (AcroForm template) as [acro|]; [|left; by eexists].
  destruct (is_xfa_pdf template); [left; by eexists|].
  destruct (Fields acro) as [|f l]; [left; by eexists|].
  destruct (fill_fields _ _ _ _ _ (f :: l)) as [[fields' n]|e];
    [right; by eexists _, _ | left; by eexists].
Qed.

Lemma batch_loop_rows rows i st new :
  report_rows (loop i rows st) = report_rows st ++ new →
  pdf_path ∉ file <$> new →
  files st !! pdf_path = fs !! pdf_path →
  Forall2 (λ e r, entry_consistent e
                    (fill fs pdf_path (file e) r mapping rules true).2)
    new rows ∧
  out_files (loop i rows st)
  = out_files st ++
    omap (λ er, archived encodable fs pdf_path mapping rules (file er.1) er.2)
      (zip new rows) ∧
  files (loop i rows st) !! pdf_path = fs !! pdf_path.
Proof.
  revert i st new. induction rows as [|r rows IH]; intros i st new Hrep Hnot Hfs.
  { cbn [batch_loop] in *.
    rewrite <- (app_nil_r (report_rows st)) in Hrep at 1.
    apply app_inv_head in Hrep as <-. simpl. by rewrite app_nil_r. }
  cbn [batch_loop] in *.
  destruct (batch_loop_report encodable pick pdf_path mapping rules rows (S i)
              (body st i r)) as (new' & Hnew' & _).
  destruct (batch_body_entry encodable pick pdf_path mapping rules st i r)
    as (e & He & Hcons & _).
  rewrite Hnew', He, <- app_assoc in Hrep.
  apply app_inv_head in Hrep. subst new. cbn [app] in Hnot |- *.
  rewrite fmap_cons in Hnot. apply not_elem_of_cons in Hnot as [Hne Hnot].
  rewrite He in Hnew'.
  assert (Hfile : file e = pick (i + 1) r (used_names st)).
  { destruct (batch_body_cases encodable pick pdf_path mapping rules st i r)
      as [(msg & _ & Hb)|(doc & n & _ & Hb)]; rewrite Hb in He;
      cbn [report_rows] in He; by apply app_inv_head in He as [= <-]. }
  unfold row_fill in Hcons. rewrite <- Hfile in Hcons.
  destruct (batch_body_cases encodable pick pdf_path mapping rules st i r)
    as [(msg & Hfill & Hb)|(doc & n & Hfill & Hb)]; cbv zeta in Hfill, Hb;
    rewrite <- Hfile in Hfill;
    destruct (fill_template_only (files st) fs (file e) r Hfs)
      as [(msg' & H1 & H2)|(doc' & n' & H1 & H2)];
    rewrite H1 in Hfill; simplify_eq.
  - destruct (IH (S i) (body st i r) new') as (HF & Hout & Hfiles).
    + by rewrite He.
    + done.
    + by rewrite Hb.
    + split; [|split; [|done]].
      * constructor; [|done]. rewrite H2. by rewrite H1 in Hcons.
      * rewrite Hout, Hb. cbn [out_files zip zip_with omap list_omap].
        unfold archived at 2. cbn [fst snd]. by rewrite H2.
  - assert (Hdoc : doc' = doc).
    { apply (f_equal (λ m, m !! file e)) in H.
      rewrite !lookup_insert_eq in H. by injection H. }
    subst doc'.
    destruct (IH (S i) (body st i r) new') as (HF & Hout & Hfiles).
    + by rewrite He.
    + done.
    + rewrite Hb. cbn [files]. rewrite <- Hfile.
      by rewrite lookup_insert_ne.
    + split; [|split; [|done]].
      * constructor; [|done]. rewrite H2. by rewrite H1 in Hcons.
      * rewrite Hout, Hb. cbn [out_files zip zip_with omap list_omap].
        unfold archived at 2. cbn [fst snd]. rewrite H2.
        rewrite lookup_insert_eq. cbn [fmap option_fmap option_map].
        rewrite <- Hfile. by rewrite <- app_assoc.
Qed.

(** X14.  When no row has been given the path of the template as its
    file name, the rows of a batch do not influence one another: the
    report entry of each row tells the outcome of filling the template,
    as it was before the batch, with that row alone; the archive holds,
    for each row whose single fill returns, the document that single fill
    writes; and the template is the same file after the batch. *)
Theorem batch_rows_independent (rows : list (gmap string string)) :
  pdf_path ∉ file <$> report_rows (loop 0 rows (batch_init fs)) →
  Forall2 (λ e r, entry_consistent e
                    (fill fs pdf_path (file e) r mapping rules true).2)
    (report_rows (loop 0 rows (batch_init fs))) rows ∧
  out_files (loop 0 rows (batch_init fs))
  = omap (λ er, archived encodable fs pdf_path mapping rules (file er.1) er.2)
      (zip (report_rows (loop 0 rows (batch_init fs))) rows) ∧
  files (loop 0 rows (batch_init fs)) !! pdf_path = fs !! pdf_path.
Proof.
  intros Hnot.
  apply (batch_loop_rows rows 0 (batch_init fs)); done.
Qed.

End BatchRows.

(** X14 at the example template and two rows named by their number. *)
Lemma batch_rows_independent_witness :
  files (batch_loop encode_all (pick_name None) "template.pdf" example_mapping
           no_rules 0 [example_row "Y"; example_row "N"]
           (batch_init example_files)) !! "template.pdf"
  = example_files !! "template.pdf".
Proof.
  refine (proj2 (proj2 (batch_rows_independent encode_all (pick_name None)
                          "template.pdf" example_mapping no_rules
                          example_files [example_row "Y"; example_row "N"] _))).
  apply (bool_decide_unpack _). vm_compute. exact I.
Defined.
(** ** The pages of the field list *)

Lemma page_items_take {A} (l : list A) page_size page :
  page_items l page_size page
  = take page_size (drop ((page - 1) * page_size) l).
Proof.
  unfold page_items. cbv zeta.
  destruct (decide ((page - 1) * page_size + page_size ≤ length l)) as [H|H].
  - f_equal. lia.
  - rewrite Nat.min_l by lia.
    rewrite !take_ge; [done | rewrite length_drop; lia..].
Qed.

Lemma pages_concat {A} (l : list A) page_size m :
  concat (page_items l page_size <$> seq 1 m) = take (m * page_size) l.
Proof.
  induction m as [|m IH]; [done|].
  rewrite seq_S, fmap_app, concat_app, IH. cbn [fmap list_fmap concat].
  rewrite app_nil_r, page_items_take.
  replace (1 + m - 1) with m by lia.
  rewrite take_take_drop. f_equal. lia.
Qed.

Lemma max_page_covers total page_size :
  0 < page_size → total ≤ max_page total page_size * page_size.
Proof.
  intros Hps. unfold max_page.
  pose proof (Nat.div_mod_eq (total + page_size - 1) page_size) as Hdm.
  pose proof (Nat.mod_upper_bound (total + page_size - 1) page_size
                ltac:(lia)) as Hlt.
  nia.
Qed.

Lemma max_page_last_starts total page_size page :
  0 < page_size → 0 < total → page ≤ max_page total page_size →
  (page - 1) * page_size < total.
Proof.
  intros Hps Htot Hpage. unfold max_page in Hpage.
  pose proof (Nat.div_mod_eq (total + page_size - 1) page_size) as Hdm.
  pose proof (Nat.mod_upper_bound (total + page_size - 1) page_size
                ltac:(lia)) as Hlt.
  nia.
Qed.

(** X15.  The pages of the field list, for a positive page size: put
    one after the other, the pages 1 to [max_page] give the list back, so
    each field is on exactly one page; no page holds more than
    [page_size] fields; and when there is a field at all no page the
    number input allows is empty. *)
Theorem pages_partition {A} (filtered : list A) (page_size : nat) :
  0 < page_size →
  concat (page_items filtered page_size
            <$> seq 1 (max_page (length filtered) page_size))
  = filtered ∧
  ∀ page, 1 ≤ page → page ≤ max_page (length filtered) page_size →
    length (page_items filtered page_size page) ≤ page_size ∧
    (filtered ≠ [] → page_items filtered page_size page ≠ []).
Proof.
  intros Hps. split.
  - rewrite pages_concat. apply take_ge. by apply max_page_covers.
  - intros page H1 Hmax. rewrite page_items_take. split.
    + rewrite length_take. lia.
    + intros Hne Hnil. apply (f_equal length) in Hnil.
      rewrite length_take, length_drop in Hnil. simpl in Hnil.
      assert (0 < length filtered) by (destruct filtered; [done | simpl; lia]).
      pose proof (max_page_last_starts _ _ _ Hps H Hmax). lia.
Qed.

(** X15 at a list of five fields shown two to a page. *)
Lemma pages_partition_witness :
  concat (page_items ["a"; "b"; "c"; "d"; "e"] 2 <$> seq 1 (max_page 5 2))
  = ["a"; "b"; "c"; "d"; "e"].
Proof.
  exact (proj1 (pages_partition ["a"; "b"; "c"; "d"; "e"] 2 ltac:(lia))).
Defined.

(** ** The project store *)

Lemma str_filter_forall p s : str_forall p (str_filter p s) = true.
Proof.
  induction s as [|c s IH]; simpl; [done|].
  destruct (p c) eqn:Hc; [|done]. simpl. by rewrite Hc, IH.
Qed.

Lemma json_name_not_absolute s :
  Py.startswith (str_filter isalnum s +:+ ".json") "/" = false.
Proof.
  pose proof (str_filter_forall isalnum s) as H.
  destruct (str_filter isalnum s) as [|c t]; [done|].
  rewrite append_String. simpl in *. apply andb_true_iff in H as [Hc _].
  apply bool_decide_eq_false. by intros ->.
Qed.

Section ProjectStore.

Variable PROJECT_DIR : string.

Lemma project_path_shape :
  ∃ dir, (dir = PROJECT_DIR ∨ dir = PROJECT_DIR +:+ "/") ∧
    ∀ id, project_path PROJECT_DIR id
          = dir +:+ str_filter isalnum id +:+ ".json".
Proof.
  unfold project_path, path_join.
  destruct (Py.truthy PROJECT_DIR && negb (Py.endswith PROJECT_DIR "/")).
  - exists (PROJECT_DIR +:+ "/"). split; [by right|]. intros id.
    rewrite json_name_not_absolute. by rewrite str_app_assoc.
  - exists PROJECT_DIR. split; [by left|]. intros id.
    by rewrite json_name_not_absolute.
Qed.

Lemma project_path_eq id1 id2 :
  project_path PROJECT_DIR id1 = project_path PROJECT_DIR id2
  ↔ str_filter isalnum id1 = str_filter isalnum id2.
Proof.
  destruct project_path_shape as (dir & _ & Hdir). rewrite !Hdir.
  split; [|by intros ->].
  intros H. apply (inj (String.app dir)) in H. by apply str_app_inj_l in H.
Qed.

(** X16.  The project store, for identifiers of code points below 128,
    keeps one file for each sequence of letters and digits: the file of
    an identifier is [PROJECT_DIR], a separator when the directory needs
    one, the identifier's letters and digits, and [.json], so no other
    character of the identifier reaches the path; two identifiers have
    the same file exactly when their letters and digits agree; loading
    an identifier after saving under it gives the payload with
    [project_id] and [updated_at] set; loading an identifier with the
    same letters and digits gives that same payload; and every other
    identifier loads what it did before. *)
Theorem project_store_by_alnum (disk : gmap string (gmap string json))
    (now : Z) (id1 id2 : string) (payload : gmap string json) :
  ascii_only id1 = true → ascii_only id2 = true →
  (∃ dir, (dir = PROJECT_DIR ∨ dir = PROJECT_DIR +:+ "/") ∧
     project_path PROJECT_DIR id1
     = dir +:+ str_filter isalnum id1 +:+ ".json" ∧
     str_forall isalnum (str_filter isalnum id1) = true) ∧
  (project_path PROJECT_DIR id1 = project_path PROJECT_DIR id2
   ↔ str_filter isalnum id1 = str_filter isalnum id2) ∧
  load_project PROJECT_DIR
    (save_project PROJECT_DIR disk now id1 payload).1 id1
  = Some (<["updated_at" := JInt now]>
            (<["project_id" := JStr id1]> payload)) ∧
  (str_filter isalnum id1 = str_filter isalnum id2 →
   load_project PROJECT_DIR
     (save_project PROJECT_DIR disk now id1 payload).1 id2
   = Some (<["updated_at" := JInt now]>
             (<["project_id" := JStr id1]> payload))) ∧
  (str_filter isalnum id1 ≠ str_filter isalnum id2 →
   load_project PROJECT_DIR
     (save_project PROJECT_DIR disk now id1 payload).1 id2
   = load_project PROJECT_DIR disk id2).
Proof.
  intros _ _.
  split; [|split; [apply project_path_eq|split; [|split]]].
  - destruct project_path_shape as (dir & Hdir & Hpath).
    exists dir. split; [done|]. split; [apply Hpath|].
    apply str_filter_forall.
  - unfold load_project, save_project. simpl. apply lookup_insert_eq.
  - intros Heq%project_path_eq. unfold load_project, save_project. simpl.
    rewrite <- Heq. apply lookup_insert_eq.
  - intros Hne. unfold load_project, save_project. simpl.
    apply lookup_insert_ne. by rewrite project_path_eq.
Qed.

End ProjectStore.

(** X16 at two identifiers with the same letters and digits. *)
Lemma project_store_by_alnum_witness :
  load_project "data/projects"
    (save_project "data/projects" empty_disk 0 "a-b" empty_payload).1 "ab"
  = Some (<["updated_at" := JInt 0]>
            (<["project_id" := JStr "a-b"]> empty_payload)).
Proof.
  refine (proj1 (proj2 (proj2 (proj2
            (project_store_by_alnum "data/projects" empty_disk 0 "a-b" "ab"
               empty_payload eq_refl eq_refl)))) eq_refl).
Defined.
